(** * Local Vault Manager: the storage mirror and the edit buffer

    A shallow embedding of [App.tsx] (the React component that edits the
    browser's [localStorage]) and of the two interfaces of [types.ts].

    - JavaScript strings are sequences of UTF-16 code units: [jsstring].
    - [localStorage] is an ordered association list with the operations
      of the Web Storage interface ([length], [key], [getItem], [setItem],
      [removeItem], [clear]); [setItem] throws when the write would take
      the store over the quota of the user agent, and the handler that
      called it is left there, as no handler has a [try].
    - The component's three [useState] cells, the store and the pending
      dismissal timers make up [AppState]; every handler is a function
      from state to state.
    - [Math.random] and [String.prototype.localeCompare] belong to the
      host: a random draw is an argument of the handlers that consume
      one, the collation is a variable of the section [App]. *)

From Stdlib Require Import List NArith ZArith Lia Bool Arith.
From Stdlib Require Import Permutation Sorted.
From Stdlib Require Import String Ascii DecimalString.
Import ListNotations.

Local Open Scope list_scope.

(** ** JavaScript strings *)

(** A code unit is a 16-bit number; a string is a list of them. *)
Definition codeunit := N.
Definition jsstring := list codeunit.

Definition jsstring_eqb (a b : jsstring) : bool :=
  if list_eq_dec N.eq_dec a b then true else false.

(** A string literal of the source, all of whose characters are ASCII. *)
Definition js (s : string) : jsstring :=
  map N_of_ascii (list_ascii_of_string s).

(** The [+] of two strings, and the template literal's [${count}]. *)
Definition concat (a b : jsstring) : jsstring := a ++ b.
Definition numberToString (n : nat) : jsstring :=
  js (NilEmpty.string_of_uint (Nat.to_uint n)).

(** A string is truthy when it is not empty. *)
Definition truthy (s : jsstring) : bool :=
  match s with [] => false | _ :: _ => true end.

(** [a || b] on strings. *)
Definition orElse (a b : jsstring) : jsstring := if truthy a then a else b.

(** *** [String.prototype.trim]

    The code units removed from both ends: ECMAScript's WhiteSpace and
    LineTerminator productions (all of them in the basic plane). *)
Definition isWhiteSpace (c : codeunit) : bool :=
  ((c =? 0x09) || (c =? 0x0A) || (c =? 0x0B) || (c =? 0x0C) || (c =? 0x0D)
   || (c =? 0x20) || (c =? 0xA0) || (c =? 0x1680)
   || ((0x2000 <=? c) && (c <=? 0x200A))
   || (c =? 0x2028) || (c =? 0x2029) || (c =? 0x202F) || (c =? 0x205F)
   || (c =? 0x3000) || (c =? 0xFEFF))%N.

Fixpoint trimStart (s : jsstring) : jsstring :=
  match s with
  | [] => []
  | c :: t => if isWhiteSpace c then trimStart t else s
  end.

Definition trimEnd (s : jsstring) : jsstring := rev (trimStart (rev s)).

Definition trim (s : jsstring) : jsstring := trimEnd (trimStart s).

(** *** [String.prototype.substr(start, length)] for in-range arguments *)
Definition substr (start len : nat) (s : jsstring) : jsstring :=
  firstn len (skipn start s).

(** *** [new Blob([s]).size]

    A Blob part that is a string is converted to a sequence of Unicode
    scalar values (a surrogate pair becomes one code point, a surrogate
    on its own becomes U+FFFD) and encoded as UTF-8; [size] counts the
    bytes. *)
Definition isHighSurrogate (c : codeunit) : bool :=
  ((0xD800 <=? c) && (c <=? 0xDBFF))%N.
Definition isLowSurrogate (c : codeunit) : bool :=
  ((0xDC00 <=? c) && (c <=? 0xDFFF))%N.

Fixpoint toScalarValues (s : jsstring) : list N :=
  match s with
  | [] => []
  | c :: t =>
      if isHighSurrogate c then
        match t with
        | d :: t' =>
            if isLowSurrogate d
            then (0x10000 + (c - 0xD800) * 0x400 + (d - 0xDC00))%N
                   :: toScalarValues t'
            else 0xFFFD%N :: toScalarValues t
        | [] => [0xFFFD%N]
        end
      else if isLowSurrogate c then 0xFFFD%N :: toScalarValues t
      else c :: toScalarValues t
  end.

Definition utf8EncodeScalar (p : N) : list N :=
  (if p <? 0x80 then [p]
   else if p <? 0x800 then [0xC0 + p / 0x40; 0x80 + p mod 0x40]
   else if p <? 0x10000 then
     [0xE0 + p / 0x1000; 0x80 + (p / 0x40) mod 0x40; 0x80 + p mod 0x40]
   else
     [0xF0 + p / 0x40000; 0x80 + (p / 0x1000) mod 0x40;
      0x80 + (p / 0x40) mod 0x40; 0x80 + p mod 0x40])%N.

Definition utf8Encode (s : jsstring) : list N :=
  flat_map utf8EncodeScalar (toScalarValues s).

Definition blobSize (s : jsstring) : nat := List.length (utf8Encode s).

(** The UTF-8 byte length of a string as the encoding's definition gives
    it: every scalar value takes one byte below U+0080, two below U+0800,
    three below U+10000 and four from there on. *)
Definition utf8Width (p : N) : nat :=
  if (p <? 0x80)%N then 1 else if (p <? 0x800)%N then 2
  else if (p <? 0x10000)%N then 3 else 4.

Definition utf8WidthSum (s : jsstring) : nat :=
  list_sum (map utf8Width (toScalarValues s)).

(** The same length read off the 16-bit code units, without decoding
    them: a code unit below U+0080 takes one byte, one below U+0800 two,
    a high surrogate followed by a low surrogate four for the two, and
    every other code unit three (a surrogate on its own is encoded as
    U+FFFD). *)
Fixpoint utf8ByteLength (s : jsstring) : nat :=
  match s with
  | [] => 0
  | c :: t =>
      if (c <? 0x80)%N then 1 + utf8ByteLength t
      else if (c <? 0x800)%N then 2 + utf8ByteLength t
      else if ((0xD800 <=? c) && (c <? 0xDC00))%N then
        match t with
        | d :: t' =>
            if ((0xDC00 <=? d) && (d <? 0xE000))%N
            then 4 + utf8ByteLength t'
            else 3 + utf8ByteLength t
        | [] => 3
        end
      else 3 + utf8ByteLength t
  end.

(** ** [types.ts] *)

Module KeyValuePair.
Record t : Type := mk { id : jsstring; key : jsstring; value : jsstring }.
End KeyValuePair.

Module LocalStorageItem.
Record t : Type := mk { key : jsstring; value : jsstring; size : nat }.
End LocalStorageItem.

(** ** The Web Storage interface

    What [App.tsx] uses of [localStorage]. [key] and [getItem] answer
    [null] ([None]) when there is nothing to return. [setItem] either
    returns, and the store is the new one, or throws
    [QuotaExceededError] ([None]), and the store is as it was. *)

Module Storage.
Class API (S : Type) : Type := {
  length : S -> nat;
  key : S -> nat -> option jsstring;
  getItem : S -> jsstring -> option jsstring;
  setItem : S -> jsstring -> jsstring -> option S;
  removeItem : S -> jsstring -> S;
  clear : S -> S
}.
End Storage.

(** The entries of the browser's store: one value per key, keys
    enumerated in a fixed order. Writing an existing key replaces its
    value where it stands, writing a new key adds the pair at the end. *)
Module ListStorage.
Definition t : Type := list (jsstring * jsstring).

Definition length (ls : t) : nat := List.length ls.

Definition key (ls : t) (i : nat) : option jsstring :=
  option_map fst (nth_error ls i).

Fixpoint getItem (ls : t) (k : jsstring) : option jsstring :=
  match ls with
  | [] => None
  | (k', v') :: rest => if jsstring_eqb k k' then Some v' else getItem rest k
  end.

Fixpoint setItem (ls : t) (k v : jsstring) : t :=
  match ls with
  | [] => [(k, v)]
  | (k', v') :: rest =>
      if jsstring_eqb k k' then (k', v) :: rest
      else (k', v') :: setItem rest k v
  end.

Definition removeItem (ls : t) (k : jsstring) : t :=
  filter (fun e => negb (jsstring_eqb k (fst e))) ls.

Definition clear (ls : t) : t := [].

Definition keys (ls : t) : list jsstring := map fst ls.

(** One value per key. *)
Definition wf (ls : t) : Prop := NoDup (keys ls).

(** The room the entries take, in code units. *)
Definition usage (ls : t) : nat :=
  list_sum (map (fun e => List.length (fst e) + List.length (snd e)) ls).

(** [setItem] under a quota: the write is refused when the store would
    take more room than the user agent grants. *)
Definition setItemWithin (quota : nat) (ls : t) (k v : jsstring)
  : option t :=
  let ls' := setItem ls k v in
  if usage ls' <=? quota then Some ls' else None.
End ListStorage.

(** The quota of the user agent, in code units. *)
Class Quota : Type := quota : nat.

#[export] Instance ListStorage_API {q : Quota} : Storage.API ListStorage.t := {
  Storage.length := ListStorage.length;
  Storage.key := ListStorage.key;
  Storage.getItem := ListStorage.getItem;
  Storage.setItem := ListStorage.setItemWithin quota;
  Storage.removeItem := ListStorage.removeItem;
  Storage.clear := ListStorage.clear
}.

(** ** [Array.prototype.sort] with a comparator

    The sort is stable; for a consistent comparator the result is the one
    of this insertion sort, whichever algorithm the engine runs. *)
Section Sort.
Context {A : Type} (compareFn : A -> A -> Z).

Fixpoint insert (x : A) (l : list A) : list A :=
  match l with
  | [] => [x]
  | y :: t => if (compareFn x y <=? 0)%Z then x :: l else y :: insert x t
  end.

Definition sort (l : list A) : list A := fold_right insert [] l.
End Sort.

(** A sample collation: code units compared one by one. *)
Fixpoint codeUnitCompare (a b : jsstring) : Z :=
  match a, b with
  | [], [] => 0
  | [], _ :: _ => -1
  | _ :: _, [] => 1
  | x :: a', y :: b' =>
      match N.compare x y with
      | Lt => -1
      | Gt => 1
      | Eq => codeUnitCompare a' b'
      end
  end%Z.

(** A second sample collation, for which different strings can be
    equal, as canonically equivalent strings are for [localeCompare]:
    the strings are compared after every [e] followed by U+0301 is
    replaced by U+00E9. *)
Fixpoint composeAcute (s : jsstring) : jsstring :=
  match s with
  | [] => []
  | c :: t =>
      match t with
      | d :: t' =>
          if ((c =? 0x65) && (d =? 0x301))%N
          then 0xE9%N :: composeAcute t'
          else c :: composeAcute t
      | [] => [c]
      end
  end.

Definition canonicalCompare (a b : jsstring) : Z :=
  codeUnitCompare (composeAcute a) (composeAcute b).

(** ** [App.tsx] *)

Inductive NotificationType : Type := success | error.

Record Notification : Type :=
  mkNotification { message : jsstring; type : NotificationType }.

Inductive Field : Type := field_key | field_value.

(** [generateId]: [random36] is the host's rendering of
    [Math.random().toString(36)], such as ["0.4fzyo82mvyr"]. *)
Definition generateId (random36 : jsstring) : jsstring := substr 2 9 random36.

Definition emptyRow (random36 : jsstring) : KeyValuePair.t :=
  KeyValuePair.mk (generateId random36) (js "") (js "").

Section App.
Context {S : Type} {api : Storage.API S}.
Variable localeCompare : jsstring -> jsstring -> Z.

(** The three state cells of the component, the store it reads and
    writes, and the number of [setTimeout] callbacks still to run. *)
Record AppState : Type := mkAppState {
  inputs : list KeyValuePair.t;
  storedItems : list LocalStorageItem.t;
  notification : option Notification;
  localStorage : S;
  timeouts : nat
}.

Definition setInputs (v : list KeyValuePair.t) (st : AppState) : AppState :=
  mkAppState v (storedItems st) (notification st) (localStorage st)
             (timeouts st).

Definition setStoredItems (v : list LocalStorageItem.t) (st : AppState)
  : AppState :=
  mkAppState (inputs st) v (notification st) (localStorage st) (timeouts st).

Definition setNotification (v : option Notification) (st : AppState)
  : AppState :=
  mkAppState (inputs st) (storedItems st) v (localStorage st) (timeouts st).

Definition setLocalStorage (v : S) (st : AppState) : AppState :=
  mkAppState (inputs st) (storedItems st) (notification st) v (timeouts st).

Definition setTimeout (st : AppState) : AppState :=
  mkAppState (inputs st) (storedItems st) (notification st)
             (localStorage st) (Datatypes.S (timeouts st)).

(** The state of the first render. *)
Definition initialState (random36 : jsstring) (ls : S) : AppState :=
  mkAppState [emptyRow random36] [] None ls 0.

(** [localStorage.getItem(key) || ''] *)
Definition getItemOrEmpty (ls : S) (key : jsstring) : jsstring :=
  match Storage.getItem ls key with
  | Some value => orElse value (js "")
  | None => js ""
  end.

(** The [for] loop of [refreshStoredItems], from index [i] with
    [remaining] iterations to go. *)
Fixpoint refreshLoop (ls : S) (i remaining : nat)
  (items : list LocalStorageItem.t) : list LocalStorageItem.t :=
  match remaining with
  | 0 => items
  | Datatypes.S remaining' =>
      let items' :=
        match Storage.key ls i with
        | Some key =>
            let value := getItemOrEmpty ls key in
            items ++ [LocalStorageItem.mk key value
                        (blobSize (concat key value))]
        | None => items
        end in
      refreshLoop ls (Datatypes.S i) remaining' items'
  end.

Definition compareItems (a b : LocalStorageItem.t) : Z :=
  localeCompare (LocalStorageItem.key a) (LocalStorageItem.key b).

Definition readItems (ls : S) : list LocalStorageItem.t :=
  refreshLoop ls 0 (Storage.length ls) [].

Definition refreshStoredItems (st : AppState) : AppState :=
  let items := readItems (localStorage st) in
  setStoredItems (sort compareItems items) st.

(** The effect run after the first render. *)
Definition mount (random36 : jsstring) (ls : S) : AppState :=
  refreshStoredItems (initialState random36 ls).

Definition showNotification (msg : jsstring) (ty : NotificationType)
  (st : AppState) : AppState :=
  setTimeout (setNotification (Some (mkNotification msg ty)) st).

(** A dismissal timer fires. *)
Definition dismiss (st : AppState) : AppState :=
  mkAppState (inputs st) (storedItems st) None (localStorage st)
             (Nat.pred (timeouts st)).

Definition addRow (random36 : jsstring) (st : AppState) : AppState :=
  setInputs (inputs st ++ [emptyRow random36]) st.

Definition removeRow (id : jsstring) (st : AppState) : AppState :=
  if 1 <? List.length (inputs st) then
    setInputs
      (filter (fun row => negb (jsstring_eqb (KeyValuePair.id row) id))
              (inputs st)) st
  else st.

Definition updateRow (field : Field) (val : jsstring) (row : KeyValuePair.t)
  : KeyValuePair.t :=
  match field with
  | field_key =>
      KeyValuePair.mk (KeyValuePair.id row) val (KeyValuePair.value row)
  | field_value =>
      KeyValuePair.mk (KeyValuePair.id row) (KeyValuePair.key row) val
  end.

Definition handleInputChange (id : jsstring) (field : Field)
  (val : jsstring) (st : AppState) : AppState :=
  setInputs
    (map (fun row => if jsstring_eqb (KeyValuePair.id row) id
                     then updateRow field val row else row)
         (inputs st)) st.

(** One turn of the [forEach] of [saveToLocalStorage]: the store and the
    count after it, or [None] when [setItem] throws. *)
Definition saveRow (acc : S * nat) (row : KeyValuePair.t) : option (S * nat) :=
  let (ls, count) := acc in
  if truthy (trim (KeyValuePair.key row)) then
    match Storage.setItem ls (trim (KeyValuePair.key row))
                          (KeyValuePair.value row) with
    | Some ls' => Some (ls', Datatypes.S count)
    | None => None
    end
  else Some (ls, count).

(** The [forEach]: the store and the count when it ends, and whether it
    returned ([true]) or was left by the exception of a [setItem]
    ([false]); the writes made before the exception stay. *)
Fixpoint forEachRow (rows : list KeyValuePair.t) (acc : S * nat)
  : (S * nat) * bool :=
  match rows with
  | [] => (acc, true)
  | row :: rest =>
      match saveRow acc row with
      | Some acc' => forEachRow rest acc'
      | None => (acc, false)
      end
  end.

Definition saveRows (rows : list KeyValuePair.t) (ls : S) : S * nat :=
  fst (forEachRow rows (ls, 0)).

Definition saveCompletes (rows : list KeyValuePair.t) (ls : S) : bool :=
  snd (forEachRow rows (ls, 0)).

Definition savedMessage (count : nat) : jsstring :=
  concat (js "Successfully saved ")
         (concat (numberToString count) (js " item(s)")).

(** The handler has no [try]: when a [setItem] throws, nothing after the
    [forEach] runs, and the state cells are as they were. *)
Definition saveToLocalStorage (random36 : jsstring) (st : AppState)
  : AppState :=
  let (acc, returned) := forEachRow (inputs st) (localStorage st, 0) in
  let (ls, count) := acc in
  let st := setLocalStorage ls st in
  if returned then
    if 0 <? count then
      let st := showNotification (savedMessage count) success st in
      let st := refreshStoredItems st in
      setInputs [emptyRow random36] st
    else
      showNotification (js "Please enter at least one key") error st
  else st.

Definition deletedMessage (key : jsstring) : jsstring :=
  concat (js "Deleted ") (concat [34%N] (concat key [34%N])).

Definition deleteItem (key : jsstring) (st : AppState) : AppState :=
  let st := setLocalStorage (Storage.removeItem (localStorage st) key) st in
  let st := refreshStoredItems st in
  showNotification (deletedMessage key) success st.

Definition clearAll (confirmed : bool) (st : AppState) : AppState :=
  if confirmed then
    let st := setLocalStorage (Storage.clear (localStorage st)) st in
    let st := refreshStoredItems st in
    showNotification (js "LocalStorage cleared") success st
  else st.
End App.

Arguments AppState S : clear implicits.

(** ** Vocabulary of the properties *)

(** The row is one that [saveToLocalStorage] writes. *)
Definition hasKey (row : KeyValuePair.t) : bool :=
  truthy (trim (KeyValuePair.key row)).

(** The entries after the write that [saveToLocalStorage] issues for a
    row, when the store accepts it. *)
Definition writeRow (ls : ListStorage.t) (row : KeyValuePair.t)
  : ListStorage.t :=
  ListStorage.setItem ls (trim (KeyValuePair.key row))
                      (KeyValuePair.value row).

(** [t] is [s] without the white space at its two ends: [s] is [t]
    between two runs of white space, and [t] neither starts nor ends
    with white space. *)
Definition stripped (s t : jsstring) : Prop :=
  exists lead trail,
    s = lead ++ t ++ trail
    /\ forallb isWhiteSpace lead = true
    /\ forallb isWhiteSpace trail = true
    /\ isWhiteSpace (hd 0%N t) = false
    /\ isWhiteSpace (last t 0%N) = false.

(** What [refreshStoredItems] pushes at index [i]. *)
Definition entryAt {S : Type} {api : Storage.API S} (ls : S) (i : nat)
  : list LocalStorageItem.t :=
  match Storage.key ls i with
  | Some key =>
      let value :=
        match Storage.getItem ls key with Some v => v | None => js "" end in
      [LocalStorageItem.mk key value (blobSize (key ++ value))]
  | None => []
  end.

Definition toItem (e : jsstring * jsstring) : LocalStorageItem.t :=
  LocalStorageItem.mk (fst e) (snd e) (blobSize (fst e ++ snd e)).

Definition toEntry (item : LocalStorageItem.t) : jsstring * jsstring :=
  (LocalStorageItem.key item, LocalStorageItem.value item).

(** [a] may stand before [b] in an array sorted with [compareFn]. *)
Definition precedes {A : Type} (compareFn : A -> A -> Z) (a b : A) : Prop :=
  (compareFn a b <= 0)%Z.

Definition ids (rows : list KeyValuePair.t) : list jsstring :=
  map KeyValuePair.id rows.

(** The two operations of the edit buffer that change its length. *)
Inductive BufferOp : Type :=
| opAddRow (random36 : jsstring)
| opRemoveRow (id : jsstring).

Definition applyOp {S : Type} (op : BufferOp) (st : AppState S) : AppState S :=
  match op with
  | opAddRow random36 => addRow random36 st
  | opRemoveRow id => removeRow id st
  end.

Definition runOps {S : Type} (ops : list BufferOp) (st : AppState S)
  : AppState S :=
  fold_left (fun st op => applyOp op st) ops st.

(** Every [addRow] of the run draws an id that no row of the buffer has
    at that moment. *)
Fixpoint idsStayFresh {S : Type} (ops : list BufferOp) (st : AppState S)
  : bool :=
  match ops with
  | [] => true
  | op :: rest =>
      match op with
      | opAddRow random36 =>
          negb (existsb (jsstring_eqb (generateId random36))
                        (ids (inputs st)))
      | opRemoveRow _ => true
      end && idsStayFresh rest (applyOp op st)
  end.

(** The value that a run of writes leaves under the key [k], which held
    [v] before; and the rows of the run that write another key. *)
Definition lastValue (k : jsstring) (rows : list KeyValuePair.t)
  (v : jsstring) : jsstring :=
  fold_left (fun acc row =>
               if jsstring_eqb (trim (KeyValuePair.key row)) k
               then KeyValuePair.value row else acc) rows v.

Definition otherKeys (k : jsstring) (rows : list KeyValuePair.t)
  : list KeyValuePair.t :=
  filter (fun row => negb (jsstring_eqb (trim (KeyValuePair.key row)) k)) rows.

(** A store whose lookups fail: three indices, no key at index 1 and no
    value under any key; it refuses every write. *)
Module PartialStorage.
Definition t : Type := unit.
Definition key (_ : t) (i : nat) : option jsstring :=
  match i with
  | 0 => Some (js "a")
  | 2 => Some (js "b")
  | _ => None
  end.
Definition api : Storage.API t := {|
  Storage.length := fun _ => 3;
  Storage.key := key;
  Storage.getItem := fun _ _ => None;
  Storage.setItem := fun _ _ _ => None;
  Storage.removeItem := fun ls _ => ls;
  Storage.clear := fun ls => ls
|}.
End PartialStorage.

(** Sample states: an empty store, the store [foo=1, bar=2], and
    buffers typed by hand. *)
Module Scenario.
Definition row (id key value : string) : KeyValuePair.t :=
  KeyValuePair.mk (js id) (js key) (js value).

Definition emptyStore : ListStorage.t := [].
Definition fooBar : ListStorage.t := [(js "foo", js "1"); (js "bar", js "2")].

Definition withInputs (rows : list KeyValuePair.t) (ls : ListStorage.t)
  : AppState ListStorage.t :=
  mkAppState rows [] None ls 0.

Definition themeRows : list KeyValuePair.t :=
  [row "r1" "theme" "dark"; row "r2" "" "x"].

Definition blankRows : list KeyValuePair.t :=
  [row "r1" "" "typed"; row "r2" "  " "kept"].

Definition duplicateRows : list KeyValuePair.t :=
  [row "r1" " a" "1"; row "r2" "a " "2"; row "r3" "" "x"; row "r4" "b" "3"].

Definition freshOps : list BufferOp :=
  [opAddRow (js "0.a"); opAddRow (js "0.b"); opRemoveRow (js "a");
   opRemoveRow (js "i"); opRemoveRow (js "b")].

(** [Math.random()] returns 0.5 twice: both ids are ["i"]. *)
Definition collidingOps : list BufferOp :=
  [opAddRow (js "0.i"); opRemoveRow (js "i")].
End Scenario.

(** ** The handlers of the rendered page *)

(** The copy button of a stored item: the text handed to
    [navigator.clipboard.writeText], and the state with the notification. *)
Definition copyValue {S : Type} (item : LocalStorageItem.t) (st : AppState S)
  : jsstring * AppState S :=
  (LocalStorageItem.value item,
   showNotification (js "Value copied to clipboard!") success st).

(** What can happen to the mounted component: a handler runs, or a
    dismissal timer fires. *)
Inductive Event : Type :=
| evAddRow (random36 : jsstring)
| evRemoveRow (id : jsstring)
| evInputChange (id : jsstring) (field : Field) (val : jsstring)
| evSave (random36 : jsstring)
| evDelete (key : jsstring)
| evClearAll (confirmed : bool)
| evCopy (item : LocalStorageItem.t)
| evDismiss.

Definition step {S : Type} {api : Storage.API S}
  (localeCompare : jsstring -> jsstring -> Z) (ev : Event) (st : AppState S)
  : AppState S :=
  match ev with
  | evAddRow random36 => addRow random36 st
  | evRemoveRow id => removeRow id st
  | evInputChange id field val => handleInputChange id field val st
  | evSave random36 => saveToLocalStorage localeCompare random36 st
  | evDelete key => deleteItem localeCompare key st
  | evClearAll confirmed => clearAll localeCompare confirmed st
  | evCopy item => snd (copyValue item st)
  | evDismiss => dismiss st
  end.

Definition run {S : Type} {api : Storage.API S}
  (localeCompare : jsstring -> jsstring -> Z) (events : list Event)
  (st : AppState S) : AppState S :=
  fold_left (fun st ev => step localeCompare ev st) events st.

(** The handler of the event is left by an exception: a save one of
    whose [setItem] throws. *)
Definition throws {S : Type} {api : Storage.API S} (ev : Event)
  (st : AppState S) : bool :=
  match ev with
  | evSave _ => negb (saveCompletes (inputs st) (localStorage st))
  | _ => false
  end.

(** No handler of the run is left by an exception. *)
Fixpoint noThrow {S : Type} {api : Storage.API S}
  (localeCompare : jsstring -> jsstring -> Z) (events : list Event)
  (st : AppState S) : bool :=
  match events with
  | [] => true
  | ev :: rest =>
      negb (throws ev st) && noThrow localeCompare rest (step localeCompare ev st)
  end.

(** The event calls no method of the store. *)
Definition bufferOnly (ev : Event) : bool :=
  match ev with
  | evSave _ | evDelete _ | evClearAll _ => false
  | _ => true
  end.

(** The stored items are what a refresh would read at this moment. *)
Definition inSync {S : Type} {api : Storage.API S}
  (localeCompare : jsstring -> jsstring -> Z) (st : AppState S) : Prop :=
  storedItems st
  = sort (compareItems localeCompare) (readItems (localStorage st)).

Definition fieldOf (field : Field) (row : KeyValuePair.t) : jsstring :=
  match field with
  | field_key => KeyValuePair.key row
  | field_value => KeyValuePair.value row
  end.

Definition otherField (field : Field) : Field :=
  match field with
  | field_key => field_value
  | field_value => field_key
  end.

(** *** The size label of a stored item: [(item.size / 1024).toFixed(2)]

    For a size below 2^53 the quotient is exact, and [toFixed(2)] takes
    the integer [n] nearest to a hundred times the quotient, the larger
    one of two that are as near, and prints [n] with a point before its
    last two digits. *)
Definition toFixed2Hundredths (size : nat) : nat := (200 * size + 1024) / 2048.

Definition twoDigits (n : nat) : jsstring :=
  numberToString (n / 10) ++ numberToString (n mod 10).

Definition sizeLabel (size : nat) : jsstring :=
  let n := toFixed2Hundredths size in
  numberToString (n / 100) ++ js "." ++ twoDigits (n mod 100) ++ js " KB".

(** *** What the page shows of the stored items: the count of the
    heading, [Stored Items ({storedItems.length})], and whether the
    Clear All button is rendered, [storedItems.length > 0]. *)
Definition storedItemsCount {S : Type} (st : AppState S) : nat :=
  List.length (storedItems st).

Definition clearAllShown {S : Type} (st : AppState S) : bool :=
  0 <? List.length (storedItems st).

(** More sample states: a buffer of two empty rows, the store
    [bar=2, foo=1], and runs of events. *)
Module Samples.
Definition twoRows : AppState ListStorage.t :=
  Scenario.withInputs [Scenario.row "r1" "" ""; Scenario.row "r2" "" ""]
                      Scenario.emptyStore.

Definition barFoo : ListStorage.t := [(js "bar", js "2"); (js "foo", js "1")].

(** Two user agents: one with room for the samples, one with room for
    eight code units. *)
Definition roomy : Quota := 64.
Definition tight : Quota := 8.
Definition tightApi : Storage.API ListStorage.t := @ListStorage_API tight.

Definition paddedRows : list KeyValuePair.t :=
  [Scenario.row "r1" " theme " " dark "; Scenario.row "r2" "  " "x"].

(** Rows whose writes fit in eight code units the first time and not
    the second. *)
Definition churnRows : list KeyValuePair.t :=
  [Scenario.row "r1" "c" "1"; Scenario.row "r2" "a" "xxxx";
   Scenario.row "r3" "a" ""; Scenario.row "r4" "b" "xxxx";
   Scenario.row "r5" "c" "2"].

(** Two rows for one key, the second too long for eight code units. *)
Definition longRows : list KeyValuePair.t :=
  [Scenario.row "r1" "a" "1"; Scenario.row "r2" "a" "xxxxxxxx"].

Definition bufferEvents : list Event :=
  [evAddRow (js "0.a"); evInputChange (js "a") field_key (js "k");
   evRemoveRow (js "i");
   evCopy (LocalStorageItem.mk (js "foo") (js "1") 4); evDismiss].

Definition storeEvents : list Event :=
  [evInputChange (js "i") field_key (js " foo ");
   evInputChange (js "i") field_value (js "3");
   evSave (js "0.b"); evDelete (js "bar"); evAddRow (js "0.c")].
End Samples.

(** * Properties *)

(** ** Strings *)

Lemma jsstring_eqb_eq (a b : jsstring) : jsstring_eqb a b = true <-> a = b.
Proof.
  unfold jsstring_eqb. destruct (list_eq_dec N.eq_dec a b); split;
    congruence.
Qed.

Lemma jsstring_eqb_refl (a : jsstring) : jsstring_eqb a a = true.
Proof. now apply jsstring_eqb_eq. Qed.

Lemma jsstring_eqb_neq (a b : jsstring) : jsstring_eqb a b = false <-> a <> b.
Proof.
  unfold jsstring_eqb. destruct (list_eq_dec N.eq_dec a b); split;
    congruence.
Qed.

Lemma jsstring_eqb_sym (a b : jsstring) : jsstring_eqb a b = jsstring_eqb b a.
Proof.
  destruct (jsstring_eqb b a) eqn:E.
  - apply jsstring_eqb_eq. symmetry. now apply jsstring_eqb_eq.
  - apply jsstring_eqb_neq. intro E'. apply jsstring_eqb_neq in E. congruence.
Qed.

Ltac case_eqb a b :=
  let E := fresh "E" in
  destruct (jsstring_eqb a b) eqn:E;
  [ apply jsstring_eqb_eq in E | apply jsstring_eqb_neq in E ].

Lemma truthy_false (s : jsstring) : truthy s = false <-> s = [].
Proof. destruct s; simpl; split; congruence. Qed.

Lemma orElse_empty (v : jsstring) : orElse v (js "") = v.
Proof. now destruct v. Qed.

Lemma trimStart_whitespace (s : jsstring) :
  trimStart s = [] <-> forallb isWhiteSpace s = true.
Proof.
  induction s as [|c t IH]; simpl.
  - tauto.
  - destruct (isWhiteSpace c); simpl.
    + exact IH.
    + split; discriminate.
Qed.

Lemma trimStart_fixed (s : jsstring) :
  forallb isWhiteSpace (trimStart s) = true -> trimStart s = [].
Proof.
  induction s as [|c t IH]; simpl.
  - reflexivity.
  - destruct (isWhiteSpace c) eqn:E.
    + exact IH.
    + simpl. rewrite E. discriminate.
Qed.

Lemma forallb_rev {A : Type} (f : A -> bool) (l : list A) :
  forallb f (rev l) = forallb f l.
Proof.
  induction l as [|x l IH]; simpl.
  - reflexivity.
  - rewrite forallb_app, IH. simpl. rewrite andb_true_r. apply andb_comm.
Qed.

(** [trim] leaves nothing exactly of the strings that are empty or made
    of white space only. *)
Lemma trim_whitespace (s : jsstring) :
  trim s = [] <-> forallb isWhiteSpace s = true.
Proof.
  unfold trim, trimEnd. split.
  - intro E. apply (f_equal (@rev codeunit)) in E.
    rewrite rev_involutive in E. simpl in E.
    apply trimStart_whitespace in E. rewrite forallb_rev in E.
    now apply trimStart_whitespace, trimStart_fixed.
  - intro E. apply trimStart_whitespace in E. now rewrite E.
Qed.

Lemma hasKey_whitespace (row : KeyValuePair.t) :
  hasKey row = negb (forallb isWhiteSpace (KeyValuePair.key row)).
Proof.
  unfold hasKey.
  destruct (forallb isWhiteSpace (KeyValuePair.key row)) eqn:E; simpl.
  - apply trim_whitespace in E. now rewrite E.
  - destruct (truthy (trim (KeyValuePair.key row))) eqn:T; [reflexivity|].
    apply truthy_false, trim_whitespace in T. congruence.
Qed.

Lemma utf8EncodeScalar_length (p : N) :
  List.length (utf8EncodeScalar p) = utf8Width p.
Proof.
  unfold utf8EncodeScalar, utf8Width.
  destruct (p <? 0x80)%N; [reflexivity|].
  destruct (p <? 0x800)%N; [reflexivity|].
  destruct (p <? 0x10000)%N; reflexivity.
Qed.

(** The size of a Blob made of one string is the sum of the widths of its
    scalar values. *)
Lemma blobSize_utf8WidthSum (s : jsstring) : blobSize s = utf8WidthSum s.
Proof.
  unfold blobSize, utf8WidthSum, utf8Encode.
  induction (toScalarValues s) as [|p l IH]; simpl.
  - reflexivity.
  - now rewrite length_app, utf8EncodeScalar_length, IH.
Qed.

(** ** What [trim] returns *)

Lemma trimStart_head (s : jsstring) :
  match trimStart s with
  | [] => True
  | c :: _ => isWhiteSpace c = false
  end.
Proof.
  induction s as [|c t IH]; simpl; [trivial|].
  destruct (isWhiteSpace c) eqn:E; [exact IH | exact E].
Qed.

Lemma trimStart_unchanged (s : jsstring) :
  match s with
  | [] => True
  | c :: _ => isWhiteSpace c = false
  end -> trimStart s = s.
Proof. destruct s as [|c t]; simpl; [trivial | now intros ->]. Qed.

Lemma trimStart_suffix (s : jsstring) : exists p, s = p ++ trimStart s.
Proof.
  induction s as [|c t [p IH]]; simpl.
  - now exists [].
  - destruct (isWhiteSpace c).
    + exists (c :: p). simpl. now f_equal.
    + now exists [].
Qed.

(** The pieces of a trimmed string: [trimStart s] is the result followed
    by the white space cut at the end. *)
Lemma trim_prefix (s : jsstring) : exists q, trimStart s = trim s ++ q.
Proof.
  unfold trim, trimEnd.
  destruct (trimStart_suffix (rev (trimStart s))) as [p Hp].
  exists (rev p). apply (f_equal (@rev codeunit)) in Hp.
  now rewrite rev_involutive, rev_app_distr in Hp.
Qed.

Lemma trim_starts_clean (s : jsstring) : trimStart (trim s) = trim s.
Proof.
  apply trimStart_unchanged. destruct (trim_prefix s) as [q Hq].
  pose proof (trimStart_head s) as Hh. rewrite Hq in Hh.
  now destruct (trim s).
Qed.

(** Trimming a trimmed string returns it. *)
Lemma trim_trim (s : jsstring) : trim (trim s) = trim s.
Proof.
  unfold trim at 1. rewrite trim_starts_clean.
  unfold trim, trimEnd. rewrite rev_involutive. f_equal.
  apply trimStart_unchanged, trimStart_head.
Qed.

(** A trimmed string neither starts nor ends with white space. *)
Lemma trim_ends (s : jsstring) :
  trim s <> [] ->
  isWhiteSpace (hd 0%N (trim s)) = false
  /\ isWhiteSpace (last (trim s) 0%N) = false.
Proof.
  intro Hne. split.
  - pose proof (trim_starts_clean s) as Hc.
    pose proof (trimStart_head (trim s)) as Hh. rewrite Hc in Hh.
    destruct (trim s); [contradiction | exact Hh].
  - unfold trim, trimEnd in *.
    pose proof (trimStart_head (rev (trimStart s))) as Hh.
    destruct (trimStart (rev (trimStart s))) as [|d b]; [contradiction|].
    simpl. now rewrite last_last.
Qed.

Lemma trimStart_split (s : jsstring) :
  exists p, s = p ++ trimStart s /\ forallb isWhiteSpace p = true.
Proof.
  induction s as [|c t [p [IH W]]]; simpl.
  - now exists [].
  - destruct (isWhiteSpace c) eqn:E.
    + exists (c :: p). simpl. rewrite E, W. split; [now f_equal|reflexivity].
    + now exists [].
Qed.

(** [trim] returns its argument without the white space at its two
    ends. *)
Lemma trim_stripped (s : jsstring) : stripped s (trim s).
Proof.
  destruct (trimStart_split s) as [lead [Hs Wl]].
  destruct (trimStart_split (rev (trimStart s))) as [p [Hp Wp]].
  exists lead, (rev p).
  assert (Ht : trimStart s = trim s ++ rev p).
  { apply (f_equal (@rev codeunit)) in Hp.
    now rewrite rev_involutive, rev_app_distr in Hp. }
  split; [now rewrite <- Ht|]. split; [exact Wl|].
  split; [now rewrite forallb_rev|].
  destruct (trim s) as [|c t] eqn:E.
  - split; reflexivity.
  - rewrite <- E. apply trim_ends. rewrite E. discriminate.
Qed.

(** ** Sorting *)

Section SortFacts.
Context {A : Type} (compareFn : A -> A -> Z).

Let le := precedes compareFn.

Lemma insert_perm (x : A) (l : list A) :
  Permutation (insert compareFn x l) (x :: l).
Proof.
  induction l as [|y t IH]; simpl.
  - apply Permutation_refl.
  - destruct (compareFn x y <=? 0)%Z.
    + apply Permutation_refl.
    + eapply perm_trans; [apply perm_skip, IH | apply perm_swap].
Qed.

Lemma sort_perm (l : list A) : Permutation (sort compareFn l) l.
Proof.
  induction l as [|x l IH]; simpl.
  - apply perm_nil.
  - eapply perm_trans; [apply insert_perm | now apply perm_skip].
Qed.

Lemma sort_length (l : list A) : List.length (sort compareFn l) = List.length l.
Proof. apply Permutation_length, sort_perm. Qed.

Lemma sort_Forall (P : A -> Prop) (l : list A) :
  Forall P l -> Forall P (sort compareFn l).
Proof.
  intro F. eapply Permutation_Forall; [|exact F].
  apply Permutation_sym, sort_perm.
Qed.

Hypothesis compare_total :
  forall a b, (compareFn a b <= 0)%Z \/ (compareFn b a <= 0)%Z.
Hypothesis compare_trans :
  forall a b c, (compareFn a b <= 0)%Z -> (compareFn b c <= 0)%Z ->
                (compareFn a c <= 0)%Z.

Lemma insert_sorted (x : A) (l : list A) :
  StronglySorted le l -> StronglySorted le (insert compareFn x l).
Proof.
  induction 1 as [|y t St IH Fa]; simpl.
  - constructor; constructor.
  - destruct (compareFn x y <=? 0)%Z eqn:E.
    + apply Z.leb_le in E. constructor.
      * now constructor.
      * constructor; [exact E|].
        eapply Forall_impl; [|exact Fa].
        intros z Hz. exact (compare_trans x y z E Hz).
    + apply Z.leb_gt in E. constructor; [exact IH|].
      eapply Permutation_Forall;
        [apply Permutation_sym, insert_perm|].
      constructor; [|exact Fa].
      destruct (compare_total y x) as [Hyx|Hxy]; [exact Hyx|].
      unfold le, precedes in *. lia.
Qed.

Lemma sort_sorted (l : list A) : StronglySorted le (sort compareFn l).
Proof.
  induction l as [|x l IH]; simpl.
  - constructor.
  - now apply insert_sorted.
Qed.
End SortFacts.

(** ** The store *)

Module ListStorageFacts.
Import ListStorage.

Lemma getItem_setItem_eq (ls : t) (k v : jsstring) :
  getItem (setItem ls k v) k = Some v.
Proof.
  induction ls as [|[k' v'] rest IH]; simpl.
  - now rewrite jsstring_eqb_refl.
  - case_eqb k k'; simpl.
    + subst. now rewrite jsstring_eqb_refl.
    + apply jsstring_eqb_neq in E. now rewrite E.
Qed.

Lemma getItem_setItem_neq (ls : t) (k k0 v : jsstring) :
  k0 <> k -> getItem (setItem ls k v) k0 = getItem ls k0.
Proof.
  intro N. induction ls as [|[k' v'] rest IH]; simpl.
  - apply jsstring_eqb_neq in N. now rewrite N.
  - case_eqb k k'; simpl.
    + subst. apply jsstring_eqb_neq in N. now rewrite N.
    + now rewrite IH.
Qed.

Lemma keys_setItem (ls : t) (k v : jsstring) :
  keys (setItem ls k v) = if existsb (jsstring_eqb k) (keys ls)
                          then keys ls else keys ls ++ [k].
Proof.
  unfold keys. induction ls as [|[k' v'] rest IH]; simpl.
  - reflexivity.
  - case_eqb k k'; simpl.
    + reflexivity.
    + rewrite IH. now destruct (existsb _ _).
Qed.

Lemma existsb_eqb_In (k : jsstring) (l : list jsstring) :
  existsb (jsstring_eqb k) l = true <-> In k l.
Proof.
  rewrite existsb_exists. split.
  - intros [x [Hx E]]. apply jsstring_eqb_eq in E. now subst.
  - intro Hk. exists k. split; [exact Hk | apply jsstring_eqb_refl].
Qed.

Lemma wf_empty : wf [].
Proof. constructor. Qed.

Lemma wf_setItem (ls : t) (k v : jsstring) : wf ls -> wf (setItem ls k v).
Proof.
  unfold wf. intro W. rewrite keys_setItem.
  destruct (existsb (jsstring_eqb k) (keys ls)) eqn:E; [exact W|].
  apply NoDup_app; [exact W | repeat constructor; intros [] |].
  intros x Hx [<-|[]].
  apply existsb_eqb_In in Hx. congruence.
Qed.

Lemma wf_removeItem (ls : t) (k : jsstring) : wf ls -> wf (removeItem ls k).
Proof.
  unfold wf, removeItem, keys. induction ls as [|[k' v'] rest IH]; simpl.
  - trivial.
  - intro W. inversion W as [|? ? Hn W']; subst.
    destruct (negb (jsstring_eqb k k')); simpl; [|now apply IH].
    constructor; [|now apply IH].
    intro Hin. apply Hn. apply in_map_iff in Hin.
    destruct Hin as [e [E He]]. apply filter_In in He.
    apply in_map_iff. exists e. tauto.
Qed.

Lemma getItem_removeItem_eq (ls : t) (k : jsstring) :
  getItem (removeItem ls k) k = None.
Proof.
  unfold removeItem. induction ls as [|[k' v'] rest IH]; simpl.
  - reflexivity.
  - destruct (jsstring_eqb k k') eqn:E; simpl; [exact IH|].
    now rewrite E.
Qed.

Lemma getItem_removeItem_neq (ls : t) (k k0 : jsstring) :
  k0 <> k -> getItem (removeItem ls k) k0 = getItem ls k0.
Proof.
  intro N. unfold removeItem.
  induction ls as [|[k' v'] rest IH]; simpl.
  - reflexivity.
  - case_eqb k k'; simpl.
    + subst. apply jsstring_eqb_neq in N. now rewrite N.
    + now rewrite IH.
Qed.

Lemma getItem_None (ls : t) (k : jsstring) :
  getItem ls k = None <-> ~ In k (keys ls).
Proof.
  unfold keys. induction ls as [|[k' v'] rest IH]; simpl.
  - tauto.
  - case_eqb k k'.
    + split; [discriminate | intro Hn; exfalso; apply Hn; now left].
    + rewrite IH. split; [|tauto].
      intros Hn [Hk|Hk]; [congruence | tauto].
Qed.

Lemma removeItem_absent (ls : t) (k : jsstring) :
  getItem ls k = None -> removeItem ls k = ls.
Proof.
  unfold removeItem. induction ls as [|[k' v'] rest IH]; simpl.
  - reflexivity.
  - destruct (jsstring_eqb k k'); [discriminate|].
    intro G. simpl. now rewrite IH.
Qed.

Lemma In_removeItem (ls : t) (k k0 v0 : jsstring) :
  In (k0, v0) (removeItem ls k) <-> In (k0, v0) ls /\ k0 <> k.
Proof.
  unfold removeItem. rewrite filter_In. simpl.
  rewrite negb_true_iff, jsstring_eqb_neq.
  split; intros [? ?]; split; congruence.
Qed.

Lemma getItem_In (ls : t) (k v : jsstring) :
  wf ls -> In (k, v) ls -> getItem ls k = Some v.
Proof.
  unfold wf, keys. induction ls as [|[k' v'] rest IH]; simpl.
  - intros _ [].
  - intros W [E|Hin]; inversion W as [|? ? Hn W']; subst.
    + inversion E; subst. now rewrite jsstring_eqb_refl.
    + case_eqb k k'.
      * subst. exfalso. apply Hn. apply in_map_iff. now exists (k', v).
      * now apply IH.
Qed.
End ListStorageFacts.

(** ** The component, over any implementation of the store *)

Section StoreAccess.
Context {S : Type} {api : Storage.API S}.

(** Rows without a key cost no call of the store: the [forEach] returns
    with the store and the count it started from. *)
Lemma forEachRow_no_keys (rows : list KeyValuePair.t) (acc : S * nat) :
  Forall (fun row => trim (KeyValuePair.key row) = js "") rows ->
  forEachRow rows acc = (acc, true).
Proof.
  induction 1 as [|row rows Hrow F IH]; simpl; [reflexivity|].
  destruct acc as [ls count]. simpl. now rewrite Hrow.
Qed.

Lemma getItemOrEmpty_spec (ls : S) (key : jsstring) :
  getItemOrEmpty ls key
  = match Storage.getItem ls key with Some v => v | None => js "" end.
Proof.
  unfold getItemOrEmpty. destruct (Storage.getItem ls key); [|reflexivity].
  apply orElse_empty.
Qed.

Lemma refreshLoop_spec (ls : S) (remaining i : nat)
  (items : list LocalStorageItem.t) :
  refreshLoop ls i remaining items
  = items ++ flat_map (entryAt ls) (seq i remaining).
Proof.
  revert i items. induction remaining as [|n IH]; intros i items; simpl.
  - now rewrite app_nil_r.
  - rewrite IH. unfold entryAt at 2.
    destruct (Storage.key ls i) as [key|]; [|reflexivity].
    rewrite getItemOrEmpty_spec. unfold concat.
    now rewrite <- app_assoc.
Qed.

Lemma readItems_spec (ls : S) :
  readItems ls = flat_map (entryAt ls) (seq 0 (Storage.length ls)).
Proof. unfold readItems. now rewrite refreshLoop_spec. Qed.

Lemma entryAt_size (ls : S) (i : nat) :
  Forall (fun item =>
            LocalStorageItem.size item
            = utf8WidthSum (LocalStorageItem.key item
                                ++ LocalStorageItem.value item))
         (entryAt ls i).
Proof.
  unfold entryAt. destruct (Storage.key ls i); constructor; simpl.
  - apply blobSize_utf8WidthSum.
  - constructor.
Qed.

End StoreAccess.

Section AppFacts.
Context {S : Type} {api : Storage.API S}.
Variable localeCompare : jsstring -> jsstring -> Z.

(** C2. When every row's key trims to the empty string,
    [saveToLocalStorage] shows the error notification and changes
    neither the buffer nor the store (nor the stored items). *)
Theorem save_without_keys (random36 : jsstring) (st : AppState S) :
  Forall (fun row => trim (KeyValuePair.key row) = js "") (inputs st) ->
  let st' := saveToLocalStorage localeCompare random36 st in
  notification st'
  = Some (mkNotification (js "Please enter at least one key") error)
  /\ inputs st' = inputs st
  /\ localStorage st' = localStorage st
  /\ storedItems st' = storedItems st.
Proof.
  intro F. cbv zeta. unfold saveToLocalStorage.
  rewrite (forEachRow_no_keys _ _ F). simpl. repeat split.
Qed.

Lemma refresh_storedItems (st : AppState S) :
  storedItems (refreshStoredItems localeCompare st)
  = sort (compareItems localeCompare) (readItems (localStorage st)).
Proof. reflexivity. Qed.

Lemma refresh_sizes (st : AppState S) :
  Forall (fun item =>
            LocalStorageItem.size item
            = utf8WidthSum (LocalStorageItem.key item
                                ++ LocalStorageItem.value item))
         (storedItems (refreshStoredItems localeCompare st)).
Proof.
  rewrite refresh_storedItems. apply sort_Forall.
  rewrite readItems_spec.
  induction (seq 0 (Storage.length (localStorage st))) as [|i l IH]; simpl.
  - constructor.
  - apply Forall_app. split; [apply entryAt_size | exact IH].
Qed.

(** C10. Whatever the store's lookups answer, [refreshStoredItems]
    produces a projection: it holds, up to the order the sort gives
    them, one entry for every index below the store's length whose key
    lookup succeeds, and none for the others; the value of an entry is
    the one the store returns for the key, or the empty string when the
    store returns none. *)
Theorem refresh_total_on_partial_lookups (st : AppState S) :
  let ls := localStorage st in
  let st' := refreshStoredItems localeCompare st in
  readItems ls = flat_map (entryAt ls) (seq 0 (Storage.length ls))
  /\ Permutation (storedItems st') (readItems ls)
  /\ (forall i key,
        i < Storage.length ls -> Storage.key ls i = Some key ->
        exists item,
          In item (storedItems st')
          /\ LocalStorageItem.key item = key
          /\ LocalStorageItem.value item
             = match Storage.getItem ls key with
               | Some v => v
               | None => js ""
               end)
  /\ (forall item,
        In item (storedItems st') ->
        exists i,
          i < Storage.length ls
          /\ Storage.key ls i = Some (LocalStorageItem.key item)
          /\ LocalStorageItem.value item
             = match Storage.getItem ls (LocalStorageItem.key item) with
               | Some v => v
               | None => js ""
               end).
Proof.
  cbv zeta. rewrite refresh_storedItems.
  assert (P := sort_perm (compareItems localeCompare)
                         (readItems (localStorage st))).
  split; [apply readItems_spec|]. split; [exact P|]. split.
  - intros i key Hi Hk.
    eexists. split.
    + eapply Permutation_in; [apply Permutation_sym, P|].
      rewrite readItems_spec. apply in_flat_map. exists i. split.
      * apply in_seq. lia.
      * unfold entryAt. rewrite Hk. left. reflexivity.
    + split; reflexivity.
  - intros item Hin.
    apply (Permutation_in _ P) in Hin. rewrite readItems_spec in Hin.
    apply in_flat_map in Hin. destruct Hin as [i [Hi Hitem]].
    apply in_seq in Hi. exists i. split; [lia|].
    unfold entryAt in Hitem.
    destruct (Storage.key (localStorage st) i) as [key|]; [|contradiction].
    destruct Hitem as [<-|[]]. split; reflexivity.
Qed.

End AppFacts.

(** ** The edit buffer *)

Section EditBuffer.
Context {S : Type}.

Lemma removeRow_single (id : jsstring) (st : AppState S) :
  List.length (inputs st) = 1 -> removeRow id st = st.
Proof. unfold removeRow. now intros ->. Qed.

Lemma ids_filter_NoDup (f : KeyValuePair.t -> bool)
  (rows : list KeyValuePair.t) :
  NoDup (ids rows) -> NoDup (ids (filter f rows)).
Proof.
  unfold ids. induction rows as [|row rows IH]; simpl; [trivial|].
  intro N. inversion N as [|? ? Hn N']; subst.
  destruct (f row); simpl; [|now apply IH].
  constructor; [|now apply IH].
  intro Hin. apply Hn. apply in_map_iff in Hin.
  destruct Hin as [r [E Hr]]. apply filter_In in Hr.
  apply in_map_iff. exists r. tauto.
Qed.

Lemma filter_absent_id (id : jsstring) (rows : list KeyValuePair.t) :
  ~ In id (ids rows) ->
  filter (fun row => negb (jsstring_eqb (KeyValuePair.id row) id)) rows
  = rows.
Proof.
  unfold ids. induction rows as [|row rows IH]; simpl; [trivial|].
  intro Hn. case_eqb (KeyValuePair.id row) id; simpl.
  - tauto.
  - rewrite IH; tauto.
Qed.

(** With pairwise distinct ids, [removeRow]'s filter drops one row at
    most. *)
Lemma filter_id_length (id : jsstring) (rows : list KeyValuePair.t) :
  NoDup (ids rows) ->
  List.length rows
  <= 1 + List.length
           (filter (fun row => negb (jsstring_eqb (KeyValuePair.id row) id))
                   rows).
Proof.
  induction rows as [|row rows IH]; simpl; [lia|].
  intro N. inversion N as [|? ? Hn N']; subst.
  case_eqb (KeyValuePair.id row) id; simpl.
  - subst. rewrite filter_absent_id; [lia | exact Hn].
  - specialize (IH N'). lia.
Qed.

Lemma ids_app_NoDup (random36 : jsstring) (rows : list KeyValuePair.t) :
  NoDup (ids (rows ++ [emptyRow random36]))
  <-> NoDup (ids rows) /\ ~ In (generateId random36) (ids rows).
Proof.
  unfold ids. rewrite map_app. simpl. split.
  - intro N. apply NoDup_remove in N. now rewrite app_nil_r in N.
  - intros [N Hn]. apply NoDup_app.
    + exact N.
    + repeat constructor. intros [].
    + intros x Hx [<-|[]]. tauto.
Qed.

Lemma idsStayFresh_invariant (ops : list BufferOp) (st : AppState S) :
  idsStayFresh ops st = true ->
  NoDup (ids (inputs st)) -> 1 <= List.length (inputs st) ->
  NoDup (ids (inputs (runOps ops st)))
  /\ 1 <= List.length (inputs (runOps ops st)).
Proof.
  revert st. induction ops as [|op ops IH]; intros st F N L; simpl in *.
  - now split.
  - apply andb_true_iff in F. destruct F as [Fop F].
    apply IH; [exact F | |]; destruct op as [random36|id]; simpl.
    + apply ids_app_NoDup. split; [exact N|].
      apply negb_true_iff in Fop. intro Hin.
      apply ListStorageFacts.existsb_eqb_In in Hin. congruence.
    + unfold removeRow. destruct (1 <? _); [|exact N].
      simpl. now apply ids_filter_NoDup.
    + rewrite length_app. simpl. lia.
    + unfold removeRow.
      destruct (1 <? List.length (inputs st)) eqn:E; [|exact L].
      apply Nat.ltb_lt in E. simpl.
      pose proof (filter_id_length id (inputs st) N). lia.
Qed.

(** With ids that never repeat: from the initial one-row buffer, every
    sequence of [addRow] and [removeRow] in which each id drawn by [addRow] differs
    from the ids then in the buffer leaves at least one row; and
    [removeRow] changes nothing when the buffer holds exactly one row. *)
Theorem buffer_keeps_a_row (random36 : jsstring) (ls : S)
  (ops : list BufferOp) :
  idsStayFresh ops (initialState random36 ls) = true ->
  1 <= List.length (inputs (runOps ops (initialState random36 ls)))
  /\ (forall id (st : AppState S),
        List.length (inputs st) = 1 -> removeRow id st = st).
Proof.
  intro F. split.
  - apply idsStayFresh_invariant; simpl.
    + exact F.
    + repeat constructor. intros [].
    + lia.
  - intros id st. apply removeRow_single.
Qed.

(** What [addRow] does: the buffer starts with exactly one row, whose
    key and value are empty. [addRow] appends exactly one row, with empty key and
    value, whose id is the nine characters that follow the first two of
    the random number's rendering; the buffer grows by one row whatever
    its length. The id is not compared with those of the buffer: the ids
    are pairwise distinct after [addRow] exactly when they were before
    and the id drawn is not among them. *)
Theorem addRow_appends_empty_row (random36 : jsstring) (ls : S)
  (st : AppState S) :
  inputs (initialState random36 ls)
  = [KeyValuePair.mk (generateId random36) (js "") (js "")]
  /\ inputs (addRow random36 st)
     = inputs st ++ [KeyValuePair.mk (generateId random36) (js "") (js "")]
  /\ List.length (inputs (addRow random36 st))
     = 1 + List.length (inputs st)
  /\ generateId random36 = firstn 9 (skipn 2 random36)
  /\ (NoDup (ids (inputs (addRow random36 st)))
      <-> NoDup (ids (inputs st))
          /\ ~ In (generateId random36) (ids (inputs st))).
Proof.
  split; [reflexivity|]. split; [reflexivity|]. split.
  - simpl. rewrite length_app. simpl. lia.
  - split; [reflexivity | apply ids_app_NoDup].
Qed.
End EditBuffer.

(** ** The component over the browser's store *)

Section ListStorageWrites.
Import ListStorage ListStorageFacts.
Context {q : Quota}.

Lemma entries_from (pre l : ListStorage.t) :
  wf (pre ++ l) ->
  flat_map (entryAt (pre ++ l)) (seq (List.length pre) (List.length l))
  = map toItem l.
Proof.
  revert pre. induction l as [|[k v] l IH]; intros pre W; simpl.
  - reflexivity.
  - assert (K : ListStorage.key (pre ++ (k, v) :: l) (List.length pre)
                = Some k).
    { unfold ListStorage.key. rewrite nth_error_app2 by lia.
      now rewrite Nat.sub_diag. }
    assert (G : getItem (pre ++ (k, v) :: l) k = Some v).
    { apply getItem_In; [exact W|]. apply in_or_app. right. now left. }
    unfold entryAt at 1. simpl. rewrite K, G.
    unfold toItem at 1. simpl. f_equal.
    specialize (IH (pre ++ [(k, v)])).
    rewrite <- app_assoc, length_app, Nat.add_comm in IH. simpl in IH.
    now apply IH.
Qed.

(** On a store with one value per key the loop reads the entries as
    they stand. *)
Lemma readItems_entries (ls : ListStorage.t) :
  wf ls -> readItems ls = map toItem ls.
Proof.
  intro W. rewrite readItems_spec. exact (entries_from [] ls W).
Qed.

Lemma toEntry_toItem (ls : ListStorage.t) : map toEntry (map toItem ls) = ls.
Proof.
  rewrite map_map. rewrite <- (map_id ls) at 2.
  apply map_ext. now intros [k v].
Qed.

(** *** Writes of one save *)

Lemma lastValue_absorb (k : jsstring) (rows : list KeyValuePair.t)
  (v : jsstring) :
  lastValue k rows (lastValue k rows v) = lastValue k rows v.
Proof.
  unfold lastValue. revert v.
  induction rows as [|row rows IH]; intro v; simpl.
  - reflexivity.
  - destruct (jsstring_eqb (trim (KeyValuePair.key row)) k).
    + reflexivity.
    + apply IH.
Qed.

(** A run of writes on a store that starts with the key [k]: the entry
    stays first and takes the last value written under [k]; the other
    writes act on the rest of the store. *)
Lemma writes_on_cons (rows : list KeyValuePair.t) (k v : jsstring)
  (rest : ListStorage.t) :
  fold_left writeRow rows ((k, v) :: rest)
  = (k, lastValue k rows v) :: fold_left writeRow (otherKeys k rows) rest.
Proof.
  revert v rest. induction rows as [|row rows IH]; intros v rest; simpl.
  - reflexivity.
  - unfold writeRow at 2. simpl.
    destruct (jsstring_eqb (trim (KeyValuePair.key row)) k); simpl.
    + apply IH.
    + rewrite IH. reflexivity.
Qed.

Lemma otherKeys_length (k : jsstring) (rows : list KeyValuePair.t) :
  List.length (otherKeys k rows) <= List.length rows.
Proof. apply filter_length_le. Qed.

Lemma writeRow_head (row : KeyValuePair.t) (v : jsstring)
  (rest : ListStorage.t) :
  writeRow ((trim (KeyValuePair.key row), v) :: rest) row
  = (trim (KeyValuePair.key row), KeyValuePair.value row) :: rest.
Proof. unfold writeRow. simpl. now rewrite jsstring_eqb_refl. Qed.

Lemma writes_twice_empty (n : nat) (rows : list KeyValuePair.t) :
  List.length rows <= n ->
  fold_left writeRow rows (fold_left writeRow rows ([] : ListStorage.t))
  = fold_left writeRow rows [].
Proof.
  revert rows. induction n as [|n IH]; intros [|row rows] L; simpl in *;
    try reflexivity; try lia.
  change (writeRow ([] : ListStorage.t) row)
    with [(trim (KeyValuePair.key row), KeyValuePair.value row)].
  rewrite writes_on_cons, writeRow_head, !writes_on_cons. f_equal.
  apply IH. pose proof (otherKeys_length (trim (KeyValuePair.key row)) rows).
  lia.
Qed.

(** Writing the same rows a second time changes nothing. *)
Lemma writes_twice (rows : list KeyValuePair.t) (ls : ListStorage.t) :
  fold_left writeRow rows (fold_left writeRow rows ls)
  = fold_left writeRow rows ls.
Proof.
  revert rows. induction ls as [|[k v] rest IH]; intro rows.
  - now apply (writes_twice_empty (List.length rows)).
  - rewrite !writes_on_cons, lastValue_absorb. f_equal. apply IH.
Qed.

Lemma filter_hasKey_idem (rows : list KeyValuePair.t) :
  filter hasKey (filter hasKey rows) = filter hasKey rows.
Proof.
  induction rows as [|row rows IH]; simpl; [reflexivity|].
  destruct (hasKey row) eqn:E; simpl; [rewrite E|]; now rewrite ?IH.
Qed.

(** The [forEach] on the browser's store: it has written the first [n]
    rows that have a key, in the order of the buffer, and counted them;
    [n] is the number of all these rows when the [forEach] returns, and
    less when a write was refused. *)
Lemma forEachRow_prefix (rows : list KeyValuePair.t) (ls : ListStorage.t)
  (count : nat) :
  exists n,
    fst (forEachRow rows (ls, count))
    = (fold_left writeRow (firstn n (filter hasKey rows)) ls, count + n)
    /\ (if snd (forEachRow rows (ls, count))
        then n = List.length (filter hasKey rows)
        else n < List.length (filter hasKey rows)).
Proof.
  revert ls count. induction rows as [|row rows IH]; intros ls count.
  - exists 0. simpl. split; [now rewrite Nat.add_0_r | reflexivity].
  - cbn [forEachRow saveRow filter].
    change (truthy (trim (KeyValuePair.key row))) with (hasKey row).
    destruct (hasKey row) eqn:K.
    + cbn [Storage.setItem ListStorage_API]. unfold setItemWithin.
      fold (writeRow ls row).
      destruct (usage (writeRow ls row) <=? quota).
      * destruct (IH (writeRow ls row) (Datatypes.S count)) as [n [E B]].
        exists (Datatypes.S n). rewrite E. split.
        -- simpl. f_equal. now rewrite Nat.add_succ_r.
        -- destruct (snd (forEachRow rows (writeRow ls row, Datatypes.S count)));
             simpl; [now f_equal | now apply Nat.succ_lt_mono in B].
      * exists 0. simpl. split; [now rewrite Nat.add_0_r|].
        apply Nat.lt_0_succ.
    + apply IH.
Qed.

Lemma saveRows_prefix (rows : list KeyValuePair.t) (ls : ListStorage.t) :
  exists n,
    n <= List.length (filter hasKey rows)
    /\ saveRows rows ls
       = (fold_left writeRow (firstn n (filter hasKey rows)) ls, n).
Proof.
  destruct (forEachRow_prefix rows ls 0) as [n [E B]].
  exists n. split; [|exact E].
  destruct (snd (forEachRow rows (ls, 0))); lia.
Qed.

(** When no write is refused, the [forEach] has issued one [setItem] for
    every row that has a key, in the order of the buffer, and counted
    them. *)
Lemma forEachRow_complete (rows : list KeyValuePair.t) (ls : ListStorage.t) :
  saveCompletes rows ls = true ->
  forEachRow rows (ls, 0)
  = ((fold_left writeRow (filter hasKey rows) ls,
      List.length (filter hasKey rows)), true).
Proof.
  unfold saveCompletes. intro C.
  destruct (forEachRow_prefix rows ls 0) as [n [E B]].
  rewrite C in B. subst n. rewrite firstn_all in E.
  destruct (forEachRow rows (ls, 0)) as [acc b]. simpl in *. now subst.
Qed.

Lemma saveRows_complete (rows : list KeyValuePair.t) (ls : ListStorage.t) :
  saveCompletes rows ls = true ->
  saveRows rows ls
  = (fold_left writeRow (filter hasKey rows) ls,
     List.length (filter hasKey rows)).
Proof.
  intro C. unfold saveRows. now rewrite (forEachRow_complete _ _ C).
Qed.

(** C6 (amended). For a buffer with at least one row that has a key, and
    any store: when the store accepts every write of the two runs,
    running the writes of [saveToLocalStorage] a second time from the
    same buffer leaves the store as the first run left it. *)
Theorem save_twice_same_store (rows : list KeyValuePair.t)
  (ls : ListStorage.t) :
  existsb hasKey rows = true ->
  saveCompletes rows ls = true ->
  saveCompletes rows (fst (saveRows rows ls)) = true ->
  fst (saveRows rows (fst (saveRows rows ls))) = fst (saveRows rows ls).
Proof.
  intros _ C1 C2. rewrite (saveRows_complete _ _ C2).
  rewrite (saveRows_complete _ _ C1). simpl. apply writes_twice.
Qed.

Lemma wf_writes (rows : list KeyValuePair.t) (ls : ListStorage.t) :
  wf ls -> wf (fold_left writeRow rows ls).
Proof.
  revert ls. induction rows as [|row rows IH]; intros ls W; simpl.
  - exact W.
  - apply IH. now apply wf_setItem.
Qed.

Lemma writes_keep_other_key (k : jsstring) (rows : list KeyValuePair.t)
  (ls : ListStorage.t) :
  Forall (fun r => trim (KeyValuePair.key r) <> k) rows ->
  getItem (fold_left writeRow rows ls) k = getItem ls k.
Proof.
  intro F. revert ls. induction F as [|row rows N F IH]; intro ls; simpl.
  - reflexivity.
  - rewrite IH. unfold writeRow. simpl.
    apply getItem_setItem_neq. congruence.
Qed.

(** C8 (amended). When several rows of the buffer have the same trimmed
    key and the store accepts every write of the save,
    [saveToLocalStorage] writes every one of them, in the order of the
    buffer: after the save the store holds, under that key, the value of
    the last of these rows. *)
Theorem last_row_wins (before after : list KeyValuePair.t)
  (row : KeyValuePair.t) (ls : ListStorage.t) :
  hasKey row = true ->
  Forall (fun r => trim (KeyValuePair.key r) <> trim (KeyValuePair.key row))
         after ->
  saveCompletes (before ++ row :: after) ls = true ->
  let rows := before ++ row :: after in
  Storage.getItem (fst (saveRows rows ls)) (trim (KeyValuePair.key row))
  = Some (KeyValuePair.value row)
  /\ fst (saveRows rows ls) = fold_left writeRow (filter hasKey rows) ls
  /\ snd (saveRows rows ls) = List.length (filter hasKey rows).
Proof.
  intros K F C. cbv zeta. rewrite (saveRows_complete _ _ C). simpl.
  split; [|split; reflexivity].
  rewrite filter_app, fold_left_app. simpl. rewrite K. simpl.
  rewrite writes_keep_other_key.
  - apply getItem_setItem_eq.
  - apply Forall_forall. intros r Hr. apply filter_In in Hr.
    rewrite Forall_forall in F. now apply F.
Qed.
End ListStorageWrites.

Section ListStorageApp.
Import ListStorage ListStorageFacts.
Context {q : Quota}.
Variable localeCompare : jsstring -> jsstring -> Z.

(** C1 (amended). For every buffer, when the store accepts every write
    of the save, [saveToLocalStorage] writes to the store, in the order
    of the buffer, the pair (trimmed key, value as typed) of every row
    whose trimmed key is not empty; the trimmed key is the key without
    the white space at its two ends, and the rows left out are exactly
    those whose key is empty or white space only. When at least one row
    was written, the notification is the success message with the number
    of rows written, the stored items are read again from the store as
    written, and the buffer is one empty row. *)
Theorem save_writes_keyed_rows (random36 : jsstring)
  (st : AppState ListStorage.t) :
  saveCompletes (inputs st) (localStorage st) = true ->
  let written := filter hasKey (inputs st) in
  let st' := saveToLocalStorage localeCompare random36 st in
  localStorage st'
  = fold_left (fun ls row =>
                 setItem ls (trim (KeyValuePair.key row))
                         (KeyValuePair.value row))
              written (localStorage st)
  /\ (forall row,
        stripped (KeyValuePair.key row) (trim (KeyValuePair.key row)))
  /\ (forall row,
        hasKey row = negb (forallb isWhiteSpace (KeyValuePair.key row)))
  /\ (written <> [] ->
      notification st'
      = Some (mkNotification
                (js "Successfully saved "
                   ++ numberToString (List.length written)
                   ++ js " item(s)") success)
      /\ (wf (localStorage st) ->
          Permutation (map toEntry (storedItems st')) (localStorage st'))
      /\ storedItems st'
         = sort (compareItems localeCompare) (readItems (localStorage st'))
      /\ inputs st' = [emptyRow random36]
      /\ KeyValuePair.key (emptyRow random36) = js ""
      /\ KeyValuePair.value (emptyRow random36) = js "").
Proof.
  intro C. cbv zeta. unfold saveToLocalStorage.
  rewrite (forEachRow_complete _ _ C).
  destruct (filter hasKey (inputs st)) as [|row written] eqn:E.
  - simpl. split; [reflexivity|].
    split; [intro row; apply trim_stripped|].
    split; [apply hasKey_whitespace|].
    intro N. now contradiction N.
  - split; [reflexivity|].
    split; [intro r; apply trim_stripped|].
    split; [apply hasKey_whitespace|].
    intros _. split; [reflexivity|]. split; [|repeat split].
    intro W.
    assert (W' : wf (fold_left writeRow (row :: written) (localStorage st)))
      by now apply wf_writes.
    match goal with
    | |- Permutation (map toEntry (storedItems ?x)) (localStorage ?x) =>
        assert (Hs : storedItems x
                     = sort (compareItems localeCompare)
                            (readItems (fold_left writeRow (row :: written)
                                                  (localStorage st))))
          by reflexivity;
        assert (Hl : localStorage x
                     = fold_left writeRow (row :: written) (localStorage st))
          by reflexivity;
        rewrite Hs, Hl
    end.
    rewrite (readItems_entries _ W').
    rewrite <- (toEntry_toItem (fold_left writeRow (row :: written)
                                          (localStorage st))) at 2.
    apply Permutation_map, sort_perm.
Qed.

(** C4. After [refreshStoredItems] the stored items are the entries of
    the store, each once, in ascending order of their keys for the
    collation; there are as many as the store has entries; the items
    held before play no part. *)
Theorem refresh_mirrors_store (st : AppState ListStorage.t) :
  wf (localStorage st) ->
  (forall a b, (localeCompare a b <= 0)%Z \/ (localeCompare b a <= 0)%Z) ->
  (forall a b c, (localeCompare a b <= 0)%Z -> (localeCompare b c <= 0)%Z ->
                 (localeCompare a c <= 0)%Z) ->
  let st' := refreshStoredItems localeCompare st in
  Permutation (map toEntry (storedItems st')) (localStorage st)
  /\ StronglySorted
       (fun a b => (localeCompare (LocalStorageItem.key a)
                                  (LocalStorageItem.key b) <= 0)%Z)
       (storedItems st')
  /\ List.length (storedItems st') = Storage.length (localStorage st)
  /\ localStorage st' = localStorage st
  /\ (forall previous,
        storedItems (refreshStoredItems localeCompare
                       (setStoredItems previous st))
        = storedItems st').
Proof.
  intros W total trans. cbv zeta. rewrite refresh_storedItems.
  rewrite (readItems_entries _ W).
  split.
  - rewrite <- (toEntry_toItem (localStorage st)) at 2.
    apply Permutation_map, sort_perm.
  - split.
    + apply (sort_sorted (compareItems localeCompare)).
      * intros a b. apply total.
      * intros a b c. apply trans.
    + split; [|split; [reflexivity|]].
      * rewrite sort_length, length_map. reflexivity.
      * intro previous. rewrite refresh_storedItems. simpl.
        now rewrite (readItems_entries _ W).
Qed.

(** C7. [deleteItem] removes the key from the store without looking it
    up first: afterwards the key has no value, every other entry is as
    it was, and a store without the key is unchanged. The stored items
    are then read again from the store: on a store with one value per
    key they are the entries that remain, none of them with the key. The
    success notification names the key. *)
Theorem deleteItem_removes_key (key : jsstring)
  (st : AppState ListStorage.t) :
  let ls := localStorage st in
  let st' := deleteItem localeCompare key st in
  let ls' := localStorage st' in
  ls' = Storage.removeItem ls key
  /\ Storage.getItem ls' key = None
  /\ (forall k v, In (k, v) ls' <-> In (k, v) ls /\ k <> key)
  /\ (forall k, k <> key -> Storage.getItem ls' k = Storage.getItem ls k)
  /\ (Storage.getItem ls key = None -> ls' = ls)
  /\ storedItems st' = sort (compareItems localeCompare) (readItems ls')
  /\ (wf ls ->
      Permutation (map toEntry (storedItems st')) ls'
      /\ (forall item, In item (storedItems st') ->
                       LocalStorageItem.key item <> key)
      /\ (forall k v, In (k, v) ls -> k <> key ->
                      In (LocalStorageItem.mk k v (blobSize (k ++ v)))
                         (storedItems st')))
  /\ notification st'
     = Some (mkNotification (js "Deleted " ++ [34%N] ++ key ++ [34%N])
                            success)
  /\ inputs st' = inputs st.
Proof.
  cbv zeta. simpl.
  split; [reflexivity|].
  split; [apply getItem_removeItem_eq|].
  split; [intros k v; apply In_removeItem|].
  split; [intros k N; now apply getItem_removeItem_neq|].
  split; [apply removeItem_absent|].
  split; [reflexivity|]. split; [|repeat split].
  intro W.
  assert (W' := wf_removeItem _ key W).
  rewrite (readItems_entries _ W').
  assert (P := sort_perm (compareItems localeCompare)
                         (map toItem (removeItem (localStorage st) key))).
  split; [|split].
  - rewrite <- (toEntry_toItem (removeItem (localStorage st) key)) at 2.
    now apply Permutation_map.
  - intros item Hin E. apply (Permutation_in _ P) in Hin.
    apply in_map_iff in Hin. destruct Hin as [[k v] [<- He]].
    apply In_removeItem in He. simpl in E. tauto.
  - intros k v Hin N. apply (Permutation_in _ (Permutation_sym P)).
    apply (in_map toItem _ (k, v)). apply In_removeItem. now split.
Qed.
End ListStorageApp.

(** ** The sample collation is a total preorder *)

Lemma codeUnitCompare_total (a b : jsstring) :
  (codeUnitCompare a b <= 0)%Z \/ (codeUnitCompare b a <= 0)%Z.
Proof.
  revert b. induction a as [|x a IH]; intros [|y b]; simpl; try lia.
  rewrite (N.compare_antisym x y).
  destruct (N.compare x y); simpl; try lia. apply IH.
Qed.

Lemma codeUnitCompare_trans (a b c : jsstring) :
  (codeUnitCompare a b <= 0)%Z -> (codeUnitCompare b c <= 0)%Z ->
  (codeUnitCompare a c <= 0)%Z.
Proof.
  revert b c.
  induction a as [|x a IH]; intros [|y b] [|z c]; simpl; try lia.
  destruct (N.compare_spec x y), (N.compare_spec y z), (N.compare_spec x z);
    subst; try lia.
  apply IH.
Qed.

(** ** The properties on sample states *)

Section SampleStates.
#[local] Existing Instance Samples.roomy.

(** A padded key and a blank one: one row written under the trimmed
    key, with its value as typed; one left out. *)
Lemma save_theme_scenario :
  let st' := saveToLocalStorage codeUnitCompare (js "0.i")
               (Scenario.withInputs Samples.paddedRows Scenario.emptyStore) in
  localStorage st' = [(js "theme", js " dark ")]
  /\ notification st'
     = Some (mkNotification (js "Successfully saved 1 item(s)") success)
  /\ storedItems st' = [LocalStorageItem.mk (js "theme") (js " dark ") 11]
  /\ inputs st' = [KeyValuePair.mk (js "i") (js "") (js "")].
Proof.
  assert (C : saveCompletes Samples.paddedRows Scenario.emptyStore = true)
    by reflexivity.
  destruct (save_writes_keyed_rows codeUnitCompare (js "0.i")
              (Scenario.withInputs Samples.paddedRows Scenario.emptyStore) C)
    as [Hstore [_ [_ Hwritten]]].
  destruct Hwritten as [Hnote [_ [Hitems [Hinputs _]]]]; [discriminate|].
  split; [exact Hstore|]. split; [exact Hnote|].
  split; [exact Hitems | exact Hinputs].
Defined.

(** In a user agent with room for eight code units, the row [theme],
    [dark] is not written: [setItem] throws, and the handler shows no
    notification and keeps the buffer. *)
Lemma save_refused_by_quota :
  let st := Scenario.withInputs Scenario.themeRows Scenario.emptyStore in
  let st' := saveToLocalStorage (api := Samples.tightApi)
               codeUnitCompare (js "0.i") st in
  filter hasKey (inputs st) = [Scenario.row "r1" "theme" "dark"]
  /\ localStorage st' = []
  /\ notification st' = None
  /\ storedItems st' = []
  /\ inputs st' = Scenario.themeRows.
Proof. cbv zeta. repeat split. Qed.

Lemma save_blank_rows :
  let st := Scenario.withInputs Scenario.blankRows Scenario.fooBar in
  let st' := saveToLocalStorage codeUnitCompare (js "0.i") st in
  notification st'
  = Some (mkNotification (js "Please enter at least one key") error)
  /\ inputs st' = Scenario.blankRows
  /\ localStorage st' = Scenario.fooBar
  /\ storedItems st' = [].
Proof.
  apply (save_without_keys codeUnitCompare (js "0.i")
           (Scenario.withInputs Scenario.blankRows Scenario.fooBar)).
  repeat constructor.
Defined.

Lemma fresh_ids_keep_a_row :
  1 <= List.length
         (inputs (runOps Scenario.freshOps
                    (initialState (js "0.i") Scenario.emptyStore)))
  /\ (forall id (st : AppState ListStorage.t),
        List.length (inputs st) = 1 -> removeRow id st = st).
Proof.
  apply (buffer_keeps_a_row (js "0.i") Scenario.emptyStore Scenario.freshOps).
  reflexivity.
Defined.

(** C3. The buffer must keep at least one row, and the guard of
    [removeRow] is there for it; yet when [Math.random] returns the same
    number twice, the two rows have one id and [removeRow] removes both:
    from the initial buffer, one [addRow] and one [removeRow] leave the
    buffer empty. *)
Lemma colliding_ids_empty_the_buffer :
  inputs (runOps Scenario.collidingOps
            (initialState (js "0.i") Scenario.emptyStore)) = []
  /\ List.length
       (inputs (runOps Scenario.collidingOps
                  (initialState (js "0.i") Scenario.emptyStore))) = 0.
Proof. split; reflexivity. Qed.

(** C9. The id of a row is what [removeRow] and [handleInputChange]
    find it by, and it must be new; yet when [Math.random] returns the
    same number twice, [addRow] gives the new row the id of the row that
    is there: the ids of the buffer are not distinct. *)
Lemma addRow_repeats_an_id :
  let st := initialState (js "0.i") Scenario.emptyStore in
  In (generateId (js "0.i")) (ids (inputs st))
  /\ ids (inputs (addRow (js "0.i") st)) = [js "i"; js "i"]
  /\ ~ NoDup (ids (inputs (addRow (js "0.i") st))).
Proof.
  cbv zeta. split; [now left|]. split; [reflexivity|].
  intro N. inversion N as [|? ? Hn _]. apply Hn. now left.
Qed.

Lemma fooBar_wf : ListStorage.wf Scenario.fooBar.
Proof.
  constructor.
  - intros [E|[]]. discriminate E.
  - constructor; [intros [] | constructor].
Qed.

(** The scenario of [foo] and [bar]: the projection is [bar], [foo]. *)
Lemma refresh_fooBar :
  let st := Scenario.withInputs [] Scenario.fooBar in
  let st' := refreshStoredItems codeUnitCompare st in
  Permutation (map toEntry (storedItems st')) Scenario.fooBar
  /\ StronglySorted
       (fun a b => (codeUnitCompare (LocalStorageItem.key a)
                                    (LocalStorageItem.key b) <= 0)%Z)
       (storedItems st')
  /\ List.length (storedItems st') = 2
  /\ localStorage st' = Scenario.fooBar
  /\ (forall previous,
        storedItems (refreshStoredItems codeUnitCompare
                       (setStoredItems previous st))
        = storedItems st').
Proof.
  exact (refresh_mirrors_store codeUnitCompare
           (Scenario.withInputs [] Scenario.fooBar)
           fooBar_wf codeUnitCompare_total codeUnitCompare_trans).
Defined.

Example refresh_fooBar_order :
  map LocalStorageItem.key
      (storedItems (refreshStoredItems codeUnitCompare
                      (Scenario.withInputs [] Scenario.fooBar)))
  = [js "bar"; js "foo"].
Proof. reflexivity. Qed.

Lemma save_duplicates_twice :
  fst (saveRows Scenario.duplicateRows
         (fst (saveRows Scenario.duplicateRows Scenario.fooBar)))
  = fst (saveRows Scenario.duplicateRows Scenario.fooBar).
Proof.
  apply (save_twice_same_store Scenario.duplicateRows Scenario.fooBar);
    reflexivity.
Defined.

(** In a user agent with room for eight code units, the first run of
    the writes of [churnRows] returns, and the second is left by an
    exception at its second write: the store then holds [c=1], not
    [c=2]. *)
Lemma save_twice_differs_under_quota :
  existsb hasKey Samples.churnRows = true
  /\ saveCompletes (api := Samples.tightApi) Samples.churnRows [] = true
  /\ fst (saveRows (api := Samples.tightApi) Samples.churnRows [])
     = [(js "c", js "2"); (js "a", js ""); (js "b", js "xxxx")]
  /\ fst (saveRows (api := Samples.tightApi) Samples.churnRows
            (fst (saveRows (api := Samples.tightApi) Samples.churnRows [])))
     = [(js "c", js "1"); (js "a", js ""); (js "b", js "xxxx")].
Proof. repeat split. Qed.

Lemma save_duplicates_last_wins :
  Storage.getItem (fst (saveRows Scenario.duplicateRows Scenario.fooBar))
                  (js "a")
  = Some (js "2")
  /\ fst (saveRows Scenario.duplicateRows Scenario.fooBar)
     = [(js "foo", js "1"); (js "bar", js "2"); (js "a", js "2");
        (js "b", js "3")]
  /\ snd (saveRows Scenario.duplicateRows Scenario.fooBar) = 3.
Proof.
  apply (last_row_wins [Scenario.row "r1" " a" "1"]
           [Scenario.row "r3" "" "x"; Scenario.row "r4" "b" "3"]
           (Scenario.row "r2" "a " "2") Scenario.fooBar).
  - reflexivity.
  - repeat constructor; discriminate.
  - reflexivity.
Defined.

(** In a user agent with room for eight code units, the second of two
    rows for the key [a] is refused: the store keeps the value of the
    first. *)
Lemma earlier_row_stays_under_quota :
  filter hasKey Samples.longRows = Samples.longRows
  /\ Storage.getItem
       (fst (saveRows (api := Samples.tightApi) Samples.longRows []))
       (js "a")
     = Some (js "1")
  /\ saveCompletes (api := Samples.tightApi) Samples.longRows [] = false.
Proof. repeat split. Qed.

(** A store that answers [null]: no entry for the index without a key,
    the empty string for the values. *)
Lemma refresh_partial_store :
  let st := @initialState PartialStorage.t (js "0.i") tt in
  let st' := @refreshStoredItems _ PartialStorage.api codeUnitCompare st in
  Permutation (storedItems st') (@readItems _ PartialStorage.api tt)
  /\ storedItems st'
     = [LocalStorageItem.mk (js "a") (js "") 1;
        LocalStorageItem.mk (js "b") (js "") 1].
Proof.
  split.
  - exact (proj1 (proj2 (@refresh_total_on_partial_lookups
                           _ PartialStorage.api codeUnitCompare
                           (@initialState PartialStorage.t (js "0.i") tt)))).
  - reflexivity.
Defined.

(** [deleteItem("bar")] on the store that holds [foo] and [bar]. *)
Lemma delete_bar_leaves_foo :
  let st' := deleteItem codeUnitCompare (js "bar")
               (Scenario.withInputs [] Scenario.fooBar) in
  Permutation (map toEntry (storedItems st')) [(js "foo", js "1")]
  /\ (forall item, In item (storedItems st') ->
                   LocalStorageItem.key item <> js "bar")
  /\ In (LocalStorageItem.mk (js "foo") (js "1") 4) (storedItems st').
Proof.
  destruct (deleteItem_removes_key codeUnitCompare (js "bar")
              (Scenario.withInputs [] Scenario.fooBar))
    as [_ [_ [_ [_ [_ [_ [Hview _]]]]]]].
  destruct (Hview fooBar_wf) as [Hperm [Hkey Hkept]].
  split; [exact Hperm|]. split; [exact Hkey|].
  apply (Hkept (js "foo") (js "1")).
  - now left.
  - discriminate.
Defined.

Example delete_bar :
  let st' := deleteItem codeUnitCompare (js "bar")
               (Scenario.withInputs [] Scenario.fooBar) in
  localStorage st' = [(js "foo", js "1")]
  /\ map LocalStorageItem.key (storedItems st') = [js "foo"].
Proof. split; reflexivity. Qed.
End SampleStates.

(** * Further properties of the handlers *)

(** ** Editing the rows of the buffer *)

Section InputChange.
Context {S : Type}.

Lemma setInputs_same (st : AppState S) : setInputs (inputs st) st = st.
Proof. now destruct st. Qed.

Lemma updateRow_id (field : Field) (val : jsstring) (row : KeyValuePair.t) :
  KeyValuePair.id (updateRow field val row) = KeyValuePair.id row.
Proof. now destruct field. Qed.

Lemma updateRow_field (field : Field) (val : jsstring)
  (row : KeyValuePair.t) :
  fieldOf field (updateRow field val row) = val
  /\ fieldOf (otherField field) (updateRow field val row)
     = fieldOf (otherField field) row.
Proof. now destruct field. Qed.

(** [handleInputChange] keeps the rows, their ids and their order, and
    touches nothing but the buffer; for an id that no row has, it changes
    nothing at all. *)
Theorem handleInputChange_keeps_rows (id : jsstring) (field : Field)
  (val : jsstring) (st : AppState S) :
  let st' := handleInputChange id field val st in
  ids (inputs st') = ids (inputs st)
  /\ List.length (inputs st') = List.length (inputs st)
  /\ storedItems st' = storedItems st
  /\ notification st' = notification st
  /\ localStorage st' = localStorage st
  /\ (~ In id (ids (inputs st)) -> st' = st).
Proof.
  cbv zeta. unfold handleInputChange. simpl.
  split; [|split; [apply length_map | repeat split]].
  - unfold ids. rewrite map_map. apply map_ext. intro row.
    destruct (jsstring_eqb (KeyValuePair.id row) id); [|reflexivity].
    apply updateRow_id.
  - intro Hn.
    assert (M : map (fun row => if jsstring_eqb (KeyValuePair.id row) id
                                then updateRow field val row else row)
                    (inputs st) = inputs st).
    { rewrite <- (map_id (inputs st)) at 2. apply map_ext_in.
      intros row Hrow. case_eqb (KeyValuePair.id row) id; [|reflexivity].
      exfalso. apply Hn. subst. unfold ids. now apply in_map. }
    rewrite M. apply setInputs_same.
Qed.

(** After [handleInputChange], every row with the id holds the new text
    in the edited field; its other field, and both fields of the rows
    with another id, are as before. *)
Theorem handleInputChange_sets_field (id : jsstring) (field : Field)
  (val : jsstring) (st : AppState S) :
  let st' := handleInputChange id field val st in
  Forall (fun row => KeyValuePair.id row = id -> fieldOf field row = val)
         (inputs st')
  /\ map (fieldOf (otherField field)) (inputs st')
     = map (fieldOf (otherField field)) (inputs st)
  /\ filter (fun row => negb (jsstring_eqb (KeyValuePair.id row) id))
            (inputs st')
     = filter (fun row => negb (jsstring_eqb (KeyValuePair.id row) id))
              (inputs st).
Proof.
  cbv zeta. unfold handleInputChange. simpl. split; [|split].
  - apply Forall_forall. intros row' Hin E.
    apply in_map_iff in Hin. destruct Hin as [row [<- Hrow]].
    case_eqb (KeyValuePair.id row) id.
    + apply updateRow_field.
    + congruence.
  - rewrite map_map. apply map_ext. intro row.
    destruct (jsstring_eqb (KeyValuePair.id row) id); [|reflexivity].
    apply updateRow_field.
  - induction (inputs st) as [|row rows IH]; simpl; [reflexivity|].
    case_eqb (KeyValuePair.id row) id; simpl.
    + rewrite updateRow_id, E, jsstring_eqb_refl. simpl. exact IH.
    + apply jsstring_eqb_neq in E. rewrite E. simpl. now rewrite IH.
Qed.

Lemma updateRow_twice (field : Field) (a b : jsstring)
  (row : KeyValuePair.t) :
  updateRow field a (updateRow field b row) = updateRow field a row.
Proof. now destruct field. Qed.

Lemma updateRow_comm (f1 f2 : Field) (a b : jsstring)
  (row : KeyValuePair.t) :
  f1 <> f2 ->
  updateRow f1 a (updateRow f2 b row) = updateRow f2 b (updateRow f1 a row).
Proof. destruct f1, f2; intro N; try reflexivity; now contradiction N. Qed.

(** Two edits in a row: of the same field of the same id, the later one
    stands alone; of different fields or of different ids, their order
    does not matter. *)
Theorem handleInputChange_composes (id1 id2 : jsstring) (f1 f2 : Field)
  (a b : jsstring) (st : AppState S) :
  handleInputChange id1 f1 a (handleInputChange id1 f1 b st)
  = handleInputChange id1 f1 a st
  /\ (id1 <> id2 \/ f1 <> f2 ->
      handleInputChange id1 f1 a (handleInputChange id2 f2 b st)
      = handleInputChange id2 f2 b (handleInputChange id1 f1 a st)).
Proof.
  unfold handleInputChange, setInputs. simpl. split.
  - f_equal. rewrite map_map. apply map_ext. intro row.
    case_eqb (KeyValuePair.id row) id1.
    + rewrite updateRow_id, E, jsstring_eqb_refl. apply updateRow_twice.
    + apply jsstring_eqb_neq in E. now rewrite E.
  - intro N. f_equal. rewrite !map_map. apply map_ext. intro row.
    case_eqb (KeyValuePair.id row) id1; case_eqb (KeyValuePair.id row) id2;
      rewrite ?updateRow_id;
      repeat match goal with
             | E : KeyValuePair.id row = _ |- _ =>
                 apply jsstring_eqb_eq in E; rewrite ?E
             | E : KeyValuePair.id row <> _ |- _ =>
                 apply jsstring_eqb_neq in E; rewrite ?E
             end; try reflexivity.
    apply jsstring_eqb_eq in E, E0.
    destruct N as [N|N]; [congruence | now apply updateRow_comm].
Qed.
End InputChange.

(** ** Removing rows *)

Section RemoveRow.
Context {S : Type}.

Lemma setInputs_twice (v w : list KeyValuePair.t) (st : AppState S) :
  setInputs v (setInputs w st) = setInputs v st.
Proof. reflexivity. Qed.

Lemma filter_id_gone (id : jsstring) (rows : list KeyValuePair.t) :
  ~ In id
      (ids (filter (fun row => negb (jsstring_eqb (KeyValuePair.id row) id))
                   rows)).
Proof.
  unfold ids. intro Hin. apply in_map_iff in Hin.
  destruct Hin as [row [E Hrow]]. apply filter_In in Hrow.
  destruct Hrow as [_ Hrow]. apply negb_true_iff, jsstring_eqb_neq in Hrow.
  contradiction.
Qed.

(** [removeRow] with an id that no row has changes nothing; a second
    [removeRow] of the same id changes nothing more; and when the buffer
    had more than one row, no row with the id is left. *)
Theorem removeRow_absent_and_twice (id : jsstring) (st : AppState S) :
  removeRow id (removeRow id st) = removeRow id st
  /\ (~ In id (ids (inputs st)) -> removeRow id st = st)
  /\ (1 < List.length (inputs st) ->
      ~ In id (ids (inputs (removeRow id st)))).
Proof.
  split; [|split].
  - destruct (1 <? List.length (inputs st)) eqn:L.
    + assert (E : removeRow id st
                  = setInputs
                      (filter (fun row =>
                                 negb (jsstring_eqb (KeyValuePair.id row) id))
                              (inputs st)) st)
        by (unfold removeRow; now rewrite L).
      rewrite E. clear E L. unfold removeRow. simpl.
      match goal with |- (if ?b then _ else _) = _ => destruct b end;
        [|reflexivity].
      unfold setInputs. simpl. f_equal.
      apply filter_absent_id, filter_id_gone.
    + assert (E : removeRow id st = st)
        by (unfold removeRow; now rewrite L).
      now rewrite !E.
  - intro Hn. unfold removeRow.
    destruct (1 <? List.length (inputs st)); [|reflexivity].
    rewrite (filter_absent_id _ _ Hn). apply setInputs_same.
  - intro L. apply Nat.ltb_lt in L. unfold removeRow. rewrite L. simpl.
    apply filter_id_gone.
Qed.

Lemma filter_id_length_exact (id : jsstring) (rows : list KeyValuePair.t) :
  NoDup (ids rows) -> In id (ids rows) ->
  1 + List.length
        (filter (fun row => negb (jsstring_eqb (KeyValuePair.id row) id))
                rows)
  = List.length rows.
Proof.
  induction rows as [|row rows IH]; simpl; [intros _ []|].
  intros N Hin. inversion N as [|? ? Hn N']; subst.
  case_eqb (KeyValuePair.id row) id; simpl.
  - subst. now rewrite filter_absent_id.
  - destruct Hin as [Hin|Hin]; [contradiction|].
    specialize (IH N' Hin). simpl in IH. now rewrite IH.
Qed.

(** In a buffer of more than one row whose ids are pairwise distinct,
    [removeRow] of the id of a row removes that row and no other: one row
    fewer, the ids still distinct. *)
Theorem removeRow_removes_one (id : jsstring) (st : AppState S) :
  NoDup (ids (inputs st)) -> In id (ids (inputs st)) ->
  1 < List.length (inputs st) ->
  1 + List.length (inputs (removeRow id st)) = List.length (inputs st)
  /\ NoDup (ids (inputs (removeRow id st)))
  /\ (forall row, In row (inputs st) -> KeyValuePair.id row <> id ->
                  In row (inputs (removeRow id st))).
Proof.
  intros N Hin L. apply Nat.ltb_lt in L. unfold removeRow. rewrite L. simpl.
  split; [now apply filter_id_length_exact|].
  split; [now apply ids_filter_NoDup|].
  intros row Hrow Hid. apply filter_In. split; [exact Hrow|].
  now apply negb_true_iff, jsstring_eqb_neq.
Qed.

(** [removeRow] of the id that [addRow] has just drawn undoes the
    [addRow], when the buffer was not empty and the id was new. *)
Theorem addRow_then_removeRow (random36 : jsstring) (st : AppState S) :
  inputs st <> [] -> ~ In (generateId random36) (ids (inputs st)) ->
  removeRow (generateId random36) (addRow random36 st) = st.
Proof.
  intros Hne Hn. unfold removeRow, addRow. cbn [inputs setInputs].
  assert (L : (1 <? List.length (inputs st ++ [emptyRow random36])) = true).
  { apply Nat.ltb_lt. rewrite length_app. simpl.
    destruct (inputs st); [contradiction | simpl; lia]. }
  rewrite L, setInputs_twice, filter_app, (filter_absent_id _ _ Hn).
  simpl. rewrite jsstring_eqb_refl. simpl. rewrite app_nil_r.
  apply setInputs_same.
Qed.
End RemoveRow.

(** ** Every handler keeps the stored items in step with the store *)

Section Events.
Context {S : Type} {api : Storage.API S}.
Variable localeCompare : jsstring -> jsstring -> Z.

(** The count only grows, by one for every write; a [forEach] that
    leaves it as it was has left the store as it was. *)
Lemma forEachRow_count (rows : list KeyValuePair.t) (ls : S) (count : nat) :
  count <= snd (fst (forEachRow rows (ls, count)))
  /\ (snd (fst (forEachRow rows (ls, count))) = count ->
      fst (fst (forEachRow rows (ls, count))) = ls).
Proof.
  revert ls count. induction rows as [|row rows IH]; intros ls count.
  - simpl. now split.
  - cbn [forEachRow saveRow].
    destruct (truthy (trim (KeyValuePair.key row))); [|apply IH].
    destruct (Storage.setItem ls (trim (KeyValuePair.key row))
                              (KeyValuePair.value row)) as [ls'|].
    + destruct (IH ls' (Datatypes.S count)) as [L _].
      split; [now apply Nat.lt_le_incl|].
      intro E. rewrite E in L. now apply Nat.nle_succ_diag_l in L.
    + simpl. now split.
Qed.

Lemma save_inSync (random36 : jsstring) (st : AppState S) :
  saveCompletes (inputs st) (localStorage st) = true ->
  inSync localeCompare st ->
  inSync localeCompare (saveToLocalStorage localeCompare random36 st).
Proof.
  unfold inSync, saveToLocalStorage, saveCompletes. intros C I.
  destruct (forEachRow_count (inputs st) (localStorage st) 0) as [_ Z0].
  destruct (forEachRow (inputs st) (localStorage st, 0)) as [[ls count] b].
  simpl in *. subst b.
  destruct count as [|count]; simpl.
  - now rewrite (Z0 eq_refl).
  - reflexivity.
Qed.

Lemma step_inSync (ev : Event) (st : AppState S) :
  throws ev st = false ->
  inSync localeCompare st -> inSync localeCompare (step localeCompare ev st).
Proof.
  destruct ev as [r|id|id f v|r|key|[|]|item|]; simpl; intros T I;
    try exact I; try reflexivity.
  - unfold removeRow. now destruct (1 <? _).
  - apply negb_false_iff in T. now apply save_inSync.
Qed.

Lemma run_inSync (events : list Event) (st : AppState S) :
  noThrow localeCompare events st = true ->
  inSync localeCompare st -> inSync localeCompare (run localeCompare events st).
Proof.
  unfold run. revert st.
  induction events as [|ev events IH]; intros st T I; simpl in *.
  - exact I.
  - apply andb_true_iff in T. destruct T as [Tev T].
    apply negb_true_iff in Tev. apply IH; [exact T|].
    now apply step_inSync.
Qed.

Lemma save_store (random36 : jsstring) (st : AppState S) :
  localStorage (saveToLocalStorage localeCompare random36 st)
  = fst (saveRows (inputs st) (localStorage st)).
Proof.
  unfold saveToLocalStorage, saveRows.
  destruct (forEachRow (inputs st) (localStorage st, 0)) as [[ls count] b].
  destruct b; [|reflexivity]. now destruct count.
Qed.

(** A save that is left by an exception changes the store only: the
    rows, the stored items, the notification and the timers are as they
    were. *)
Lemma save_thrown (random36 : jsstring) (st : AppState S) :
  saveCompletes (inputs st) (localStorage st) = false ->
  saveToLocalStorage localeCompare random36 st
  = setLocalStorage (fst (saveRows (inputs st) (localStorage st))) st.
Proof.
  unfold saveToLocalStorage, saveRows, saveCompletes.
  destruct (forEachRow (inputs st) (localStorage st, 0)) as [[ls count] b].
  simpl. now intros ->.
Qed.

(** From the first render on, as long as no handler is left by an
    exception, whatever handlers run and whatever timers fire, the
    stored items are those a refresh would read from the store at that
    moment: no handler that returns writes the store without
    refreshing. *)
Theorem stored_items_never_stale (random36 : jsstring) (ls : S)
  (events : list Event) :
  noThrow localeCompare events (mount localeCompare random36 ls) = true ->
  inSync localeCompare
         (run localeCompare events (mount localeCompare random36 ls)).
Proof. intro T. apply run_inSync; [exact T | reflexivity]. Qed.

(** The handlers of the edit buffer, the copy button and the timers
    leave the store and the stored items alone. *)
Theorem buffer_events_leave_store (events : list Event) (st : AppState S) :
  forallb bufferOnly events = true ->
  localStorage (run localeCompare events st) = localStorage st
  /\ storedItems (run localeCompare events st) = storedItems st.
Proof.
  unfold run. revert st.
  induction events as [|ev events IH]; intros st B; simpl in *.
  - now split.
  - apply andb_true_iff in B. destruct B as [Bev B].
    destruct (IH (step localeCompare ev st) B) as [-> ->].
    destruct ev; try discriminate Bev; simpl; try (now split).
    unfold removeRow. now destruct (1 <? _).
Qed.
End Events.

(** ** What a save does to the browser's store *)

Section SaveOnListStorage.
Import ListStorage ListStorageFacts.
Context {q : Quota}.

Lemma in_firstn {A : Type} (n : nat) (l : list A) (x : A) :
  In x (firstn n l) -> In x l.
Proof.
  revert l. induction n as [|n IH]; intros [|y l]; simpl; try tauto.
  intros [E|Hin]; [now left | right; now apply IH].
Qed.

Lemma getItem_Some_In (ls : ListStorage.t) (k v : jsstring) :
  getItem ls k = Some v -> In (k, v) ls.
Proof.
  induction ls as [|[k' v'] rest IH]; simpl; [discriminate|].
  case_eqb k k'.
  - intro G. left. congruence.
  - intro G. right. now apply IH.
Qed.

Lemma length_setItem (ls : ListStorage.t) (k v : jsstring) :
  List.length ls <= List.length (setItem ls k v) <= 1 + List.length ls.
Proof.
  induction ls as [|[k' v'] rest IH]; simpl; [lia|].
  destruct (jsstring_eqb k k'); simpl; lia.
Qed.

Lemma keys_setItem_In (ls : ListStorage.t) (k v k0 : jsstring) :
  In k0 (keys (setItem ls k v)) <-> In k0 (keys ls) \/ k0 = k.
Proof.
  rewrite keys_setItem.
  destruct (existsb (jsstring_eqb k) (keys ls)) eqn:E.
  - apply existsb_eqb_In in E. split; [tauto|].
    intros [Hin | ->]; assumption.
  - rewrite in_app_iff. simpl. split; intros [Hin|Hin]; try tauto.
    + destruct Hin as [<-|[]]. now right.
    + subst. right. now left.
Qed.

Lemma keys_writes (rows : list KeyValuePair.t) (ls : ListStorage.t)
  (k : jsstring) :
  In k (keys (fold_left writeRow rows ls))
  <-> In k (keys ls)
      \/ exists row, In row rows /\ k = trim (KeyValuePair.key row).
Proof.
  revert ls. induction rows as [|row rows IH]; intro ls; simpl.
  - split; [tauto|]. intros [Hin|[row [[] _]]]. exact Hin.
  - rewrite IH.
    change (keys (writeRow ls row))
      with (keys (setItem ls (trim (KeyValuePair.key row))
                          (KeyValuePair.value row))).
    rewrite keys_setItem_In. split.
    + intros [[Hin | ->] | [r [Hr E]]].
      * now left.
      * right. exists row. split; [now left | reflexivity].
      * right. exists r. split; [now right | exact E].
    + intros [Hin|[r [[<-|Hr] E]]].
      * left. now left.
      * left. now right.
      * right. now exists r.
Qed.

Lemma length_writes (rows : list KeyValuePair.t) (ls : ListStorage.t) :
  List.length ls <= List.length (fold_left writeRow rows ls)
  <= List.length rows + List.length ls.
Proof.
  revert ls. induction rows as [|row rows IH]; intro ls; simpl; [lia|].
  specialize (IH (writeRow ls row)).
  pose proof (length_setItem ls (trim (KeyValuePair.key row))
                             (KeyValuePair.value row)) as L.
  unfold writeRow in *. simpl in *. lia.
Qed.

(** A save removes no key and keeps the value of every key that no row
    writes; the store grows by at most the number of rows written. *)
Theorem save_keeps_other_entries (rows : list KeyValuePair.t)
  (ls : ListStorage.t) :
  let ls' := fst (saveRows rows ls) in
  (forall k, In k (keys ls) -> In k (keys ls'))
  /\ (forall k,
        Forall (fun row => hasKey row = true ->
                           trim (KeyValuePair.key row) <> k) rows ->
        getItem ls' k = getItem ls k)
  /\ List.length ls <= List.length ls'
     <= snd (saveRows rows ls) + List.length ls.
Proof.
  cbv zeta. destruct (saveRows_prefix rows ls) as [n [Ln E]].
  rewrite E. simpl. split; [|split].
  - intros k Hin. apply keys_writes. now left.
  - intros k F. apply writes_keep_other_key.
    apply Forall_forall. intros row Hrow.
    apply in_firstn, filter_In in Hrow.
    rewrite Forall_forall in F. now apply F.
  - pose proof (length_writes (firstn n (filter hasKey rows)) ls) as L.
    now rewrite (firstn_length_le _ Ln) in L.
Qed.

(** Every key of the store after a save was there before, or is the
    trimmed key of a row: not empty, unchanged by another [trim], with no
    white space at either end. *)
Theorem save_writes_trimmed_keys (rows : list KeyValuePair.t)
  (ls : ListStorage.t) :
  Forall (fun k =>
            In k (keys ls)
            \/ (exists row, In row rows /\ k = trim (KeyValuePair.key row))
               /\ k <> []
               /\ trim k = k
               /\ isWhiteSpace (hd 0%N k) = false
               /\ isWhiteSpace (last k 0%N) = false)
         (keys (fst (saveRows rows ls))).
Proof.
  destruct (saveRows_prefix rows ls) as [n [Ln Es]].
  rewrite Es. clear Es. simpl. apply Forall_forall. intros k Hin.
  apply keys_writes in Hin. destruct Hin as [Hin|[row [Hrow ->]]].
  - now left.
  - right. apply in_firstn, filter_In in Hrow. destruct Hrow as [Hrow K].
    assert (Hne : trim (KeyValuePair.key row) <> []).
    { intro E. unfold hasKey in K. now rewrite E in K. }
    split; [now exists row|]. split; [exact Hne|].
    split; [apply trim_trim | now apply trim_ends].
Qed.

Lemma removeItem_setItem_eq (ls : ListStorage.t) (k v : jsstring) :
  removeItem (setItem ls k v) k = removeItem ls k.
Proof.
  unfold removeItem. induction ls as [|[k' v'] rest IH]; simpl.
  - now rewrite jsstring_eqb_refl.
  - case_eqb k k'; simpl.
    + subst. now rewrite jsstring_eqb_refl.
    + apply jsstring_eqb_neq in E. rewrite E. simpl. now rewrite IH.
Qed.

Lemma removeItem_setItem_neq (ls : ListStorage.t) (k k0 v : jsstring) :
  k0 <> k -> removeItem (setItem ls k0 v) k = setItem (removeItem ls k) k0 v.
Proof.
  intro N. unfold removeItem.
  induction ls as [|[k' v'] rest IH]; simpl.
  - assert (E : jsstring_eqb k k0 = false)
      by (apply jsstring_eqb_neq; congruence).
    now rewrite E.
  - case_eqb k0 k'; simpl.
    + subst. assert (E : jsstring_eqb k k' = false)
        by (apply jsstring_eqb_neq; congruence).
      rewrite E. simpl. now rewrite jsstring_eqb_refl.
    + destruct (jsstring_eqb k k'); simpl.
      * exact IH.
      * apply jsstring_eqb_neq in E. rewrite E. now rewrite IH.
Qed.

Lemma removeItem_writes (rows : list KeyValuePair.t) (ls : ListStorage.t)
  (k : jsstring) :
  removeItem (fold_left writeRow rows ls) k
  = fold_left writeRow (otherKeys k rows) (removeItem ls k).
Proof.
  revert ls. induction rows as [|row rows IH]; intro ls; simpl.
  - reflexivity.
  - rewrite IH.
    change (writeRow ls row)
      with (setItem ls (trim (KeyValuePair.key row))
                    (KeyValuePair.value row)).
    case_eqb (trim (KeyValuePair.key row)) k; simpl.
    + rewrite <- E. now rewrite removeItem_setItem_eq.
    + now rewrite removeItem_setItem_neq.
Qed.

Lemma otherKeys_hasKey (k : jsstring) (rows : list KeyValuePair.t) :
  filter hasKey (otherKeys k rows) = otherKeys k (filter hasKey rows).
Proof.
  unfold otherKeys. induction rows as [|row rows IH]; simpl; [reflexivity|].
  destruct (hasKey row) eqn:K;
    destruct (jsstring_eqb (trim (KeyValuePair.key row)) k) eqn:E; simpl;
    rewrite ?K, ?E; simpl; now rewrite IH.
Qed.
End SaveOnListStorage.

(** ** Sorting, filtering and reordering *)

Section SortMore.
Context {A : Type} (compareFn : A -> A -> Z).

Hypothesis compare_total :
  forall a b, (compareFn a b <= 0)%Z \/ (compareFn b a <= 0)%Z.
Hypothesis compare_trans :
  forall a b c, (compareFn a b <= 0)%Z -> (compareFn b c <= 0)%Z ->
                (compareFn a c <= 0)%Z.

Lemma insert_first (x : A) (l : list A) :
  Forall (precedes compareFn x) l -> insert compareFn x l = x :: l.
Proof.
  intros [|y t Hy _]; simpl; [reflexivity|].
  apply Z.leb_le in Hy. now rewrite Hy.
Qed.

Lemma filter_insert (p : A -> bool) (x : A) (l : list A) :
  StronglySorted (precedes compareFn) l ->
  filter p (insert compareFn x l)
  = if p x then insert compareFn x (filter p l) else filter p l.
Proof.
  induction 1 as [|y t St IH Fa]; simpl.
  - now destruct (p x).
  - destruct (compareFn x y <=? 0)%Z eqn:E; simpl.
    + destruct (p x); [|reflexivity].
      symmetry. apply insert_first.
      apply Z.leb_le in E.
      assert (F : Forall (precedes compareFn x) (y :: t)).
      { constructor; [exact E|]. eapply Forall_impl; [|exact Fa].
        intros z Hz. exact (compare_trans x y z E Hz). }
      apply Forall_forall. intros z Hz.
      rewrite Forall_forall in F. apply F.
      change (In z (filter p (y :: t))) in Hz.
      now apply filter_In in Hz.
    + rewrite IH. destruct (p y), (p x); simpl; try reflexivity.
      now rewrite E.
Qed.

(** Sorting the kept elements, or keeping them after sorting: the same
    list. *)
Lemma sort_filter (p : A -> bool) (l : list A) :
  sort compareFn (filter p l) = filter p (sort compareFn l).
Proof.
  induction l as [|x l IH]; simpl; [reflexivity|].
  rewrite filter_insert
    by now apply (sort_sorted compareFn compare_total compare_trans).
  destruct (p x); simpl; now rewrite IH.
Qed.

(** Two sorted lists with the same elements are equal when the
    comparator tells those elements apart. *)
Lemma sorted_perm_eq (l1 l2 : list A) :
  StronglySorted (precedes compareFn) l1 ->
  StronglySorted (precedes compareFn) l2 ->
  Permutation l1 l2 ->
  (forall a b, In a l1 -> In b l1 ->
               (compareFn a b <= 0)%Z -> (compareFn b a <= 0)%Z -> a = b) ->
  l1 = l2.
Proof.
  intro S1. revert l2.
  induction S1 as [|a l1 S1 IH F1]; intros l2 S2 P anti.
  - apply Permutation_nil in P. now subst.
  - destruct l2 as [|b l2].
    + apply Permutation_sym, Permutation_nil in P. discriminate.
    + inversion S2 as [|? ? S2' F2]; subst.
      assert (E : a = b).
      { assert (Ha : In a (b :: l2))
          by (eapply Permutation_in; [exact P | now left]).
        assert (Hb : In b (a :: l1))
          by (eapply Permutation_in;
              [apply Permutation_sym; exact P | now left]).
        destruct Ha as [Ha|Ha]; [now symmetry|].
        destruct Hb as [Hb|Hb]; [exact Hb|].
        rewrite Forall_forall in F1, F2.
        apply anti; [now left | now right | now apply F1 | now apply F2]. }
      subst b. f_equal. apply IH.
      * exact S2'.
      * now apply Permutation_cons_inv in P.
      * intros x y Hx Hy. apply anti; now right.
Qed.
End SortMore.

Lemma filter_map_toItem (f : LocalStorageItem.t -> bool)
  (ls : ListStorage.t) :
  map toItem (filter (fun e => f (toItem e)) ls) = filter f (map toItem ls).
Proof.
  induction ls as [|e ls IH]; simpl; [reflexivity|].
  destruct (f (toItem e)); simpl; now rewrite IH.
Qed.

(** ** The list of stored items over the browser's store *)

Section ViewOnListStorage.
Import ListStorage ListStorageFacts.
Context {q : Quota}.
Variable localeCompare : jsstring -> jsstring -> Z.

Lemma step_wf (ev : Event) (st : AppState ListStorage.t) :
  wf (localStorage st) -> wf (localStorage (step localeCompare ev st)).
Proof.
  destruct ev as [r|id|id f v|r|key|[|]|item|]; simpl; intro W;
    try exact W.
  - unfold removeRow. now destruct (1 <? _).
  - rewrite save_store.
    destruct (saveRows_prefix (inputs st) (localStorage st)) as [n [_ E]].
    rewrite E. simpl. now apply wf_writes.
  - now apply wf_removeItem.
  - apply wf_empty.
Qed.

Lemma run_wf (events : list Event) (st : AppState ListStorage.t) :
  wf (localStorage st) -> wf (localStorage (run localeCompare events st)).
Proof.
  unfold run. revert st.
  induction events as [|ev events IH]; intros st W; simpl.
  - exact W.
  - apply IH. now apply step_wf.
Qed.

Lemma item_keys (ls : ListStorage.t) :
  map LocalStorageItem.key (map toItem ls) = keys ls.
Proof. unfold keys. rewrite map_map. now apply map_ext. Qed.

Lemma refreshed_keys (ls : ListStorage.t) :
  wf ls ->
  NoDup (map LocalStorageItem.key
             (sort (compareItems localeCompare) (readItems ls))).
Proof.
  intro W. rewrite (readItems_entries _ W).
  eapply Permutation_NoDup.
  - apply Permutation_sym, Permutation_map, sort_perm.
  - rewrite item_keys. exact W.
Qed.

(** A save leaves the stored items as they were, or as a refresh reads
    them from the store it leaves. *)
Lemma save_storedItems (random36 : jsstring) (st : AppState ListStorage.t) :
  storedItems (saveToLocalStorage localeCompare random36 st) = storedItems st
  \/ storedItems (saveToLocalStorage localeCompare random36 st)
     = sort (compareItems localeCompare)
            (readItems
               (localStorage (saveToLocalStorage localeCompare random36 st))).
Proof.
  unfold saveToLocalStorage.
  destruct (forEachRow (inputs st) (localStorage st, 0)) as [[ls count] b].
  destruct b; [|now left]. destruct count; [now left | now right].
Qed.

Lemma step_keys (ev : Event) (st : AppState ListStorage.t) :
  wf (localStorage st) ->
  NoDup (map LocalStorageItem.key (storedItems st)) ->
  NoDup (map LocalStorageItem.key
             (storedItems (step localeCompare ev st))).
Proof.
  intros W N.
  destruct ev as [r|id|id f v|r|key|[|]|item|]; simpl; try exact N.
  - unfold removeRow. now destruct (1 <? _).
  - destruct (save_storedItems r st) as [-> | ->]; [exact N|].
    apply refreshed_keys. apply (step_wf (evSave r) st W).
  - apply refreshed_keys. now apply wf_removeItem.
  - constructor.
Qed.

(** On a store with one value per key, whatever handlers run after the
    first render, the store keeps one value per key and no two stored
    items have the same key. *)
Theorem stored_item_keys_distinct (random36 : jsstring)
  (ls : ListStorage.t) (events : list Event) :
  wf ls ->
  let st := run localeCompare events (mount localeCompare random36 ls) in
  wf (localStorage st) /\ NoDup (map LocalStorageItem.key (storedItems st)).
Proof.
  intro W. cbv zeta.
  assert (J : wf (localStorage (mount localeCompare random36 ls))
              /\ NoDup (map LocalStorageItem.key
                           (storedItems (mount localeCompare random36 ls)))).
  { split; [exact W|]. now apply refreshed_keys. }
  revert J. generalize (mount localeCompare random36 ls). unfold run.
  induction events as [|ev events IH]; intros st [Ws Ns]; simpl.
  - now split.
  - apply IH. split; [now apply step_wf | now apply step_keys].
Qed.

(** When the store accepts every write of the save, the row typed last
    under a key is in the list after the save, with the trimmed key, the
    value as typed and its size. *)
Theorem saved_row_is_listed (random36 : jsstring)
  (st : AppState ListStorage.t) (before after : list KeyValuePair.t)
  (row : KeyValuePair.t) :
  wf (localStorage st) ->
  inputs st = before ++ row :: after ->
  hasKey row = true ->
  Forall (fun r => trim (KeyValuePair.key r) <> trim (KeyValuePair.key row))
         after ->
  saveCompletes (inputs st) (localStorage st) = true ->
  In (LocalStorageItem.mk
        (trim (KeyValuePair.key row)) (KeyValuePair.value row)
        (blobSize (trim (KeyValuePair.key row) ++ KeyValuePair.value row)))
     (storedItems (saveToLocalStorage localeCompare random36 st)).
Proof.
  intros W E K F C. unfold saveToLocalStorage.
  rewrite (forEachRow_complete _ _ C), E, filter_app. simpl. rewrite K.
  rewrite length_app. simpl. rewrite Nat.add_succ_r. simpl.
  set (ls' := fold_left writeRow
                (filter hasKey before ++ row :: filter hasKey after)
                (localStorage st)).
  assert (W' : wf ls') by now apply wf_writes.
  eapply Permutation_in; [apply Permutation_sym, sort_perm|].
  rewrite (readItems_entries _ W').
  apply (in_map toItem ls' (trim (KeyValuePair.key row),
                            KeyValuePair.value row)).
  apply getItem_Some_In. unfold ls'. rewrite fold_left_app. simpl.
  rewrite writes_keep_other_key.
  - apply getItem_setItem_eq.
  - apply Forall_forall. intros r Hr. apply filter_In in Hr.
    rewrite Forall_forall in F. now apply F.
Qed.

Hypothesis compare_total :
  forall a b, (localeCompare a b <= 0)%Z \/ (localeCompare b a <= 0)%Z.
Hypothesis compare_trans :
  forall a b c, (localeCompare a b <= 0)%Z -> (localeCompare b c <= 0)%Z ->
                (localeCompare a c <= 0)%Z.

(** [deleteItem] takes the item with the key out of the list and leaves
    the other items as they were, in the same order. *)
Theorem deleteItem_filters_the_list (key : jsstring)
  (st : AppState ListStorage.t) :
  wf (localStorage st) -> inSync localeCompare st ->
  storedItems (deleteItem localeCompare key st)
  = filter (fun item => negb (jsstring_eqb key (LocalStorageItem.key item)))
           (storedItems st).
Proof.
  intros W I. unfold inSync in I. rewrite I. simpl.
  rewrite (readItems_entries _ W).
  rewrite (readItems_entries _ (wf_removeItem _ key W)).
  unfold removeItem.
  rewrite (filter_map_toItem
             (fun item => negb (jsstring_eqb key (LocalStorageItem.key item)))).
  apply sort_filter.
  - intros a b. apply compare_total.
  - intros a b c. apply compare_trans.
Qed.

Lemma entry_of_key (ls : ListStorage.t) (e1 e2 : jsstring * jsstring) :
  wf ls -> In e1 ls -> In e2 ls -> fst e1 = fst e2 -> e1 = e2.
Proof.
  destruct e1 as [k1 v1], e2 as [k2 v2]. simpl. intros W H1 H2 E. subst k2.
  apply (getItem_In _ _ _ W) in H1. apply (getItem_In _ _ _ W) in H2.
  congruence.
Qed.

(** When no two different keys of the store are equal for the collation,
    the list of stored items does not depend on the order in which the
    store enumerates its keys. *)
Theorem refresh_ignores_store_order (st1 st2 : AppState ListStorage.t) :
  wf (localStorage st1) ->
  Permutation (localStorage st1) (localStorage st2) ->
  (forall a b, In a (keys (localStorage st1)) ->
               In b (keys (localStorage st1)) ->
               (localeCompare a b <= 0)%Z -> (localeCompare b a <= 0)%Z ->
               a = b) ->
  storedItems (refreshStoredItems localeCompare st1)
  = storedItems (refreshStoredItems localeCompare st2).
Proof.
  intros W1 P anti.
  assert (W2 : wf (localStorage st2)).
  { unfold wf, keys. eapply Permutation_NoDup; [|exact W1].
    now apply Permutation_map. }
  rewrite !refresh_storedItems.
  rewrite (readItems_entries _ W1), (readItems_entries _ W2).
  assert (T : forall a b : LocalStorageItem.t,
             (compareItems localeCompare a b <= 0)%Z
             \/ (compareItems localeCompare b a <= 0)%Z)
    by (intros a b; apply compare_total).
  assert (R : forall a b c : LocalStorageItem.t,
             (compareItems localeCompare a b <= 0)%Z ->
             (compareItems localeCompare b c <= 0)%Z ->
             (compareItems localeCompare a c <= 0)%Z)
    by (intros a b c; apply compare_trans).
  apply (sorted_perm_eq (compareItems localeCompare)).
  - now apply sort_sorted.
  - now apply sort_sorted.
  - eapply perm_trans; [apply sort_perm|].
    eapply perm_trans; [|apply Permutation_sym, sort_perm].
    now apply Permutation_map.
  - intros a b Ha Hb Hab Hba.
    apply (Permutation_in _ (sort_perm _ _)) in Ha, Hb.
    apply in_map_iff in Ha, Hb.
    destruct Ha as [e1 [<- H1]], Hb as [e2 [<- H2]].
    f_equal. apply (entry_of_key (localStorage st1)); try assumption.
    apply anti; try assumption.
    + unfold keys. now apply in_map.
    + unfold keys. now apply in_map.
Qed.
End ViewOnListStorage.

(** ** Deleting and clearing after a save *)

Section DeleteAndClear.
Import ListStorage ListStorageFacts.
Context {q : Quota}.
Variable localeCompare : jsstring -> jsstring -> Z.

Lemma otherKeys_none (k : jsstring) (rows : list KeyValuePair.t) :
  Forall (fun row => hasKey row = true -> trim (KeyValuePair.key row) = k)
         rows ->
  otherKeys k (filter hasKey rows) = [].
Proof.
  unfold otherKeys. induction 1 as [|row rows Hrow F IH]; simpl.
  - reflexivity.
  - destruct (hasKey row) eqn:K; simpl; [|exact IH].
    rewrite (Hrow eq_refl), jsstring_eqb_refl. simpl. exact IH.
Qed.

(** When the store accepts every write of the save: deleting a key
    after the save leaves the store that deleting first and then saving
    the rows of the other keys leaves, if that save is accepted too; and
    when the store did not hold the key and every row written was for
    that key, the store is back to what it was before the save. *)
Theorem delete_after_save (key random36 random36' : jsstring)
  (st : AppState ListStorage.t) :
  saveCompletes (inputs st) (localStorage st) = true ->
  (saveCompletes (otherKeys key (inputs st))
                 (removeItem (localStorage st) key) = true ->
   localStorage (deleteItem localeCompare key
                   (saveToLocalStorage localeCompare random36 st))
   = localStorage
       (saveToLocalStorage localeCompare random36'
          (setInputs (otherKeys key (inputs st))
                     (deleteItem localeCompare key st))))
  /\ (getItem (localStorage st) key = None ->
      Forall (fun row => hasKey row = true ->
                         trim (KeyValuePair.key row) = key) (inputs st) ->
      localStorage (deleteItem localeCompare key
                      (saveToLocalStorage localeCompare random36 st))
      = localStorage st).
Proof.
  intro C1.
  assert (E : localStorage (deleteItem localeCompare key
                              (saveToLocalStorage localeCompare random36 st))
              = fold_left writeRow (otherKeys key (filter hasKey (inputs st)))
                          (removeItem (localStorage st) key)).
  { change (removeItem
              (localStorage (saveToLocalStorage localeCompare random36 st))
              key = fold_left writeRow
                      (otherKeys key (filter hasKey (inputs st)))
                      (removeItem (localStorage st) key)).
    rewrite save_store, (saveRows_complete _ _ C1). simpl.
    apply removeItem_writes. }
  split.
  - intro C2. rewrite E, save_store.
    cbn [inputs localStorage setInputs deleteItem showNotification
         setTimeout setNotification refreshStoredItems setStoredItems
         setLocalStorage].
    change (Storage.removeItem (localStorage st) key)
      with (removeItem (localStorage st) key).
    rewrite (saveRows_complete _ _ C2). simpl.
    now rewrite otherKeys_hasKey.
  - intros G F. rewrite E, (otherKeys_none _ _ F). simpl.
    now apply removeItem_absent.
Qed.

(** [clearAll] without the confirmation changes nothing and shows
    nothing. With it, the store and the list of stored items are empty
    and the rows of the buffer are kept; a save that follows leaves in the
    store only keys of its own rows. *)
Theorem clearAll_empties_the_store (random36 : jsstring)
  (st : AppState ListStorage.t) :
  clearAll localeCompare false st = st
  /\ (let st' := clearAll localeCompare true st in
      localStorage st' = []
      /\ storedItems st' = []
      /\ inputs st' = inputs st
      /\ notification st'
         = Some (mkNotification (js "LocalStorage cleared") success)
      /\ Forall (fun k => exists row,
                     In row (inputs st) /\ hasKey row = true
                     /\ k = trim (KeyValuePair.key row))
                (keys (localStorage
                         (saveToLocalStorage localeCompare random36 st')))).
Proof.
  split; [reflexivity|]. cbv zeta.
  split; [reflexivity|]. split; [reflexivity|]. split; [reflexivity|].
  split; [reflexivity|].
  rewrite save_store.
  destruct (saveRows_prefix (inputs st) []) as [n [_ E]].
  cbn [inputs localStorage clearAll showNotification setTimeout
       setNotification refreshStoredItems setStoredItems setLocalStorage].
  change (Storage.clear (localStorage st)) with ([] : ListStorage.t).
  rewrite E. simpl.
  apply Forall_forall. intros k Hk. apply keys_writes in Hk.
  destruct Hk as [[]|[row [Hrow ->]]].
  apply in_firstn, filter_In in Hrow. exists row. tauto.
Qed.
End DeleteAndClear.

(** ** Notifications and their timers *)

Section Notifications.
Context {S : Type}.

(** A notification shown while another is displayed takes its place, and
    the timer of the first, when it fires, removes the second although
    the second's own timer is still to run. *)
Theorem earlier_timer_clears_later_notification
  (msg1 msg2 : jsstring) (ty1 ty2 : NotificationType) (st : AppState S) :
  let st2 := showNotification msg2 ty2 (showNotification msg1 ty1 st) in
  notification st2 = Some (mkNotification msg2 ty2)
  /\ timeouts st2 = 2 + timeouts st
  /\ notification (dismiss st2) = None
  /\ timeouts (dismiss st2) = 1 + timeouts st
  /\ inputs (dismiss st2) = inputs st
  /\ storedItems (dismiss st2) = storedItems st.
Proof. cbv zeta. repeat split. Qed.
End Notifications.

Section NotificationTimer.
Context {S : Type} {api : Storage.API S}.
Variable localeCompare : jsstring -> jsstring -> Z.

Lemma step_notification_timer (ev : Event) (st : AppState S) :
  (notification st = None \/ 0 < timeouts st) ->
  notification (step localeCompare ev st) = None
  \/ 0 < timeouts (step localeCompare ev st).
Proof.
  intro I.
  destruct ev as [r|id|id f v|r|key|[|]|item|]; simpl;
    try exact I; try (right; apply Nat.lt_0_succ); try (now left).
  - unfold removeRow. now destruct (1 <? _).
  - unfold saveToLocalStorage.
    destruct (forEachRow (inputs st) (localStorage st, 0))
      as [[ls count] b].
    destruct b; [|exact I].
    destruct count; simpl; right; apply Nat.lt_0_succ.
Qed.

(** Whatever handlers run after the first render, a notification is on
    display only while a dismissal timer is still to fire: none is left
    on the page for good. *)
Theorem notification_has_a_timer (random36 : jsstring) (ls : S)
  (events : list Event) :
  let st := run localeCompare events (mount localeCompare random36 ls) in
  notification st = None \/ 0 < timeouts st.
Proof.
  cbv zeta. unfold run.
  assert (I : notification (mount localeCompare random36 ls) = None
              \/ 0 < timeouts (mount localeCompare random36 ls))
    by now left.
  revert I. generalize (mount localeCompare random36 ls).
  induction events as [|ev events IH]; intros st I; simpl.
  - exact I.
  - apply IH. now apply step_notification_timer.
Qed.
End NotificationTimer.

(** ** Sizes *)

Lemma surrogates_above (c : codeunit) :
  (c < 0xD800)%N -> isHighSurrogate c = false /\ isLowSurrogate c = false.
Proof.
  intro L. unfold isHighSurrogate, isLowSurrogate.
  assert (E1 : (0xD800 <=? c)%N = false) by (apply N.leb_gt; lia).
  assert (E2 : (0xDC00 <=? c)%N = false) by (apply N.leb_gt; lia).
  now rewrite E1, E2.
Qed.

Lemma utf8WidthSum_plain (c : codeunit) (t : jsstring) :
  isHighSurrogate c = false -> isLowSurrogate c = false ->
  utf8WidthSum (c :: t) = utf8Width c + utf8WidthSum t.
Proof.
  intros H L. unfold utf8WidthSum. cbn [toScalarValues].
  now rewrite H, L.
Qed.

Lemma utf8WidthSum_lone_low (c : codeunit) (t : jsstring) :
  isHighSurrogate c = false -> isLowSurrogate c = true ->
  utf8WidthSum (c :: t) = 3 + utf8WidthSum t.
Proof.
  intros H L. unfold utf8WidthSum. cbn [toScalarValues].
  now rewrite H, L.
Qed.

Lemma utf8WidthSum_lone_high (c : codeunit) (t : jsstring) :
  isHighSurrogate c = true ->
  match t with
  | d :: _ => isLowSurrogate d = false
  | [] => True
  end ->
  utf8WidthSum (c :: t) = 3 + utf8WidthSum t.
Proof.
  intros H L. unfold utf8WidthSum. cbn [toScalarValues]. rewrite H.
  destruct t as [|d t']; [reflexivity|]. now rewrite L.
Qed.

Lemma utf8WidthSum_pair (c d : codeunit) (t : jsstring) :
  isHighSurrogate c = true -> isLowSurrogate d = true ->
  utf8WidthSum (c :: d :: t) = 4 + utf8WidthSum t.
Proof.
  intros H L. unfold utf8WidthSum. cbn [toScalarValues].
  rewrite H, L. cbn [map list_sum]. f_equal.
  unfold utf8Width.
  set (p := (0x10000 + (c - 0xD800) * 0x400 + (d - 0xDC00))%N).
  assert (P : (0x10000 <= p)%N) by (unfold p; lia).
  assert (E1 : (p <? 0x80)%N = false) by (apply N.ltb_ge; lia).
  assert (E2 : (p <? 0x800)%N = false) by (apply N.ltb_ge; lia).
  assert (E3 : (p <? 0x10000)%N = false) by (apply N.ltb_ge; lia).
  now rewrite E1, E2, E3.
Qed.

Lemma utf8Width_range (c : codeunit) :
  (c < 0x10000)%N -> 1 <= utf8Width c <= 3.
Proof.
  intro L. unfold utf8Width.
  destruct (c <? 0x80)%N; [lia|]. destruct (c <? 0x800)%N; [lia|].
  assert (E : (c <? 0x10000)%N = true) by now apply N.ltb_lt.
  rewrite E. lia.
Qed.

Lemma utf8WidthSum_bounds_upto (n : nat) (s : jsstring) :
  List.length s <= n ->
  Forall (fun c => (c < 0x10000)%N) s ->
  List.length s <= utf8WidthSum s <= 3 * List.length s.
Proof.
  revert s. induction n as [|n IH]; intros [|c t] L F; simpl in L;
    try (cbn; lia).
  inversion F as [|? ? Hc Ft]; subst.
  destruct (isHighSurrogate c) eqn:H.
  - destruct t as [|d t'].
    + rewrite utf8WidthSum_lone_high by (exact H || exact I).
      cbn. lia.
    + destruct (isLowSurrogate d) eqn:Ld.
      * rewrite (utf8WidthSum_pair _ _ _ H Ld).
        inversion Ft as [|? ? _ Ft']; subst. simpl in L.
        assert (B := IH t' ltac:(lia) Ft'). simpl. lia.
      * rewrite utf8WidthSum_lone_high by (exact H || exact Ld).
        assert (B := IH (d :: t') ltac:(lia) Ft).
        simpl List.length in *. lia.
  - destruct (isLowSurrogate c) eqn:Lc.
    + rewrite (utf8WidthSum_lone_low _ _ H Lc).
      assert (B := IH t ltac:(lia) Ft). simpl List.length. lia.
    + rewrite (utf8WidthSum_plain _ _ H Lc).
      assert (B := IH t ltac:(lia) Ft).
      pose proof (utf8Width_range c Hc). simpl List.length. lia.
Qed.

Lemma utf8WidthSum_ascii (s : jsstring) :
  Forall (fun c => (c < 0x80)%N) s -> utf8WidthSum s = List.length s.
Proof.
  induction 1 as [|c t Hc F IH]; [reflexivity|].
  destruct (surrogates_above c ltac:(lia)) as [H L].
  rewrite (utf8WidthSum_plain _ _ H L), IH. unfold utf8Width.
  apply N.ltb_lt in Hc. now rewrite Hc.
Qed.

Lemma isHighSurrogate_range (c : codeunit) :
  isHighSurrogate c = ((0xD800 <=? c) && (c <? 0xDC00))%N.
Proof.
  unfold isHighSurrogate. destruct (0xD800 <=? c)%N; [simpl|reflexivity].
  destruct (N.leb_spec c 0xDBFF), (N.ltb_spec c 0xDC00);
    try reflexivity; lia.
Qed.

Lemma isLowSurrogate_range (c : codeunit) :
  isLowSurrogate c = ((0xDC00 <=? c) && (c <? 0xE000))%N.
Proof.
  unfold isLowSurrogate. destruct (0xDC00 <=? c)%N; [simpl|reflexivity].
  destruct (N.leb_spec c 0xDFFF), (N.ltb_spec c 0xE000);
    try reflexivity; lia.
Qed.

Lemma utf8WidthSum_upto (n : nat) (s : jsstring) :
  List.length s <= n ->
  Forall (fun c => (c < 0x10000)%N) s ->
  utf8WidthSum s = utf8ByteLength s.
Proof.
  revert s. induction n as [|n IH]; intros [|c t] L F; simpl in L;
    try reflexivity; try lia.
  inversion F as [|? ? Hc Ft]; subst.
  cbn [utf8ByteLength].
  rewrite <- isHighSurrogate_range.
  destruct (N.ltb_spec c 0x80) as [C1|C1].
  - destruct (surrogates_above c ltac:(lia)) as [H Lw].
    rewrite (utf8WidthSum_plain _ _ H Lw), (IH t ltac:(lia) Ft).
    unfold utf8Width. apply N.ltb_lt in C1. now rewrite C1.
  - destruct (N.ltb_spec c 0x800) as [C2|C2].
    + destruct (surrogates_above c ltac:(lia)) as [H Lw].
      rewrite (utf8WidthSum_plain _ _ H Lw), (IH t ltac:(lia) Ft).
      unfold utf8Width. apply N.ltb_ge in C1. apply N.ltb_lt in C2.
      now rewrite C1, C2.
    + destruct (isHighSurrogate c) eqn:H.
      * destruct t as [|d t'].
        -- now rewrite utf8WidthSum_lone_high.
        -- rewrite <- isLowSurrogate_range.
           destruct (isLowSurrogate d) eqn:Ld.
           ++ rewrite (utf8WidthSum_pair _ _ _ H Ld).
              inversion Ft as [|? ? _ Ft']; subst. simpl in L.
              now rewrite (IH t' ltac:(lia) Ft').
           ++ rewrite utf8WidthSum_lone_high by (exact H || exact Ld).
              now rewrite (IH (d :: t') ltac:(lia) Ft).
      * destruct (isLowSurrogate c) eqn:Lc.
        -- rewrite (utf8WidthSum_lone_low _ _ H Lc).
           now rewrite (IH t ltac:(lia) Ft).
        -- rewrite (utf8WidthSum_plain _ _ H Lc), (IH t ltac:(lia) Ft).
           unfold utf8Width. apply N.ltb_ge in C1, C2.
           apply N.ltb_lt in Hc. now rewrite C1, C2, Hc.
Qed.

(** C5. The size that [refreshStoredItems] gives an entry whose key and
    value are made of 16-bit code units is the number of bytes of the
    UTF-8 encoding of the key followed by the value; the entry with key
    ["a"] and value ["bb"] has size 3, and the entry whose key is one
    character outside the basic plane (two code units, four bytes) and
    whose value is U+00E9 U+20AC (two and three bytes) has size 9. *)
Theorem size_is_utf8_byte_length :
  (forall (S : Type) (api : Storage.API S) localeCompare (st : AppState S),
      Forall (fun item =>
                Forall (fun c => (c < 0x10000)%N)
                       (LocalStorageItem.key item
                          ++ LocalStorageItem.value item) ->
                LocalStorageItem.size item
                = utf8ByteLength (LocalStorageItem.key item
                                    ++ LocalStorageItem.value item))
             (storedItems (refreshStoredItems localeCompare st)))
  /\ (forall (q : Quota) localeCompare random36,
        storedItems (mount localeCompare random36
                           ([(js "a", js "bb")] : ListStorage.t))
        = [LocalStorageItem.mk (js "a") (js "bb") 3])
  /\ (forall (q : Quota) localeCompare random36,
        storedItems (mount localeCompare random36
                           ([([0xD83D; 0xDE00], [0xE9; 0x20AC])]%N
                            : ListStorage.t))
        = [LocalStorageItem.mk [0xD83D; 0xDE00]%N [0xE9; 0x20AC]%N 9]).
Proof.
  split; [|split; reflexivity].
  intros S api localeCompare st.
  eapply Forall_impl; [|apply (refresh_sizes localeCompare st)].
  intros item E F. rewrite E.
  now apply (utf8WidthSum_upto
               (List.length (LocalStorageItem.key item
                               ++ LocalStorageItem.value item))).
Qed.

Section Sizes.
Context {S : Type} {api : Storage.API S}.
Variable localeCompare : jsstring -> jsstring -> Z.

(** The size of a stored item whose key and value are made of 16-bit
    code units is at least the number of code units of the key and the
    value together, and at most three times that number. *)
Theorem size_between_one_and_three_bytes (st : AppState S) :
  Forall (fun item =>
            let s := LocalStorageItem.key item ++ LocalStorageItem.value item in
            Forall (fun c => (c < 0x10000)%N) s ->
            List.length s <= LocalStorageItem.size item <= 3 * List.length s)
         (storedItems (refreshStoredItems localeCompare st)).
Proof.
  eapply Forall_impl; [|apply (refresh_sizes localeCompare st)].
  intros item E. cbv zeta. intro F. rewrite E.
  now apply (utf8WidthSum_bounds_upto
               (List.length (LocalStorageItem.key item
                               ++ LocalStorageItem.value item))).
Qed.

(** The size of a stored item whose key and value are ASCII is the
    length of the key plus the length of the value. *)
Theorem size_of_ascii_item (st : AppState S) :
  Forall (fun item =>
            Forall (fun c => (c < 0x80)%N)
                   (LocalStorageItem.key item ++ LocalStorageItem.value item) ->
            LocalStorageItem.size item
            = List.length (LocalStorageItem.key item)
              + List.length (LocalStorageItem.value item))
         (storedItems (refreshStoredItems localeCompare st)).
Proof.
  eapply Forall_impl; [|apply (refresh_sizes localeCompare st)].
  intros item E F. rewrite E, (utf8WidthSum_ascii _ F).
  apply length_app.
Qed.
End Sizes.

(** ** The size label *)

Lemma toFixed2Hundredths_spec (size : nat) :
  1024 * toFixed2Hundredths size <= 100 * size + 512
  /\ 100 * size + 512 < 1024 * (toFixed2Hundredths size + 1).
Proof.
  unfold toFixed2Hundredths.
  pose proof (Nat.div_mod_eq (200 * size + 1024) 2048) as E.
  pose proof (Nat.mod_upper_bound (200 * size + 1024) 2048) as U.
  lia.
Qed.

(** The number on the label of a stored item is its size divided by
    1024, rounded to the nearest hundredth and upwards from the middle;
    it grows with the size, and it is 0.00 exactly for the sizes up to
    five bytes. *)
Theorem size_label_rounds_to_hundredths (size : nat) :
  (N.of_nat size < 2 ^ 53)%N ->
  let n := toFixed2Hundredths size in
  1024 * n <= 100 * size + 512 < 1024 * (n + 1)
  /\ (n = 0 <-> size <= 5)
  /\ (size <= 5 -> sizeLabel size = js "0.00 KB")
  /\ (forall size', size <= size' -> n <= toFixed2Hundredths size').
Proof.
  intros _. cbv zeta.
  pose proof (toFixed2Hundredths_spec size) as [Lo Hi].
  split; [now split|]. split; [lia|]. split.
  - intro L.
    do 6 (destruct size as [|size]; [reflexivity|]). lia.
  - intros size' L.
    pose proof (toFixed2Hundredths_spec size') as [Lo' Hi']. lia.
Qed.

Lemma size_label_of_128_bytes :
  let n := toFixed2Hundredths 128 in
  1024 * n <= 100 * 128 + 512 < 1024 * (n + 1)
  /\ (n = 0 <-> 128 <= 5)
  /\ (128 <= 5 -> sizeLabel 128 = js "0.00 KB")
  /\ (forall size', 128 <= size' -> n <= toFixed2Hundredths size').
Proof.
  apply (size_label_rounds_to_hundredths 128). reflexivity.
Defined.

Example size_label_tie : sizeLabel 128 = js "0.13 KB".
Proof. reflexivity. Qed.

(** ** The heading of the list *)

Section Heading.
Import ListStorage ListStorageFacts.
Context {q : Quota}.
Variable localeCompare : jsstring -> jsstring -> Z.

(** On a store with one value per key, whatever handlers run after the
    first render, as long as none is left by an exception, the count in
    the heading is the number of entries of the store, and the Clear All
    button is there exactly when the store is not empty. *)
Theorem heading_counts_the_store (random36 : jsstring) (ls : ListStorage.t)
  (events : list Event) :
  wf ls ->
  noThrow localeCompare events (mount localeCompare random36 ls) = true ->
  let st := run localeCompare events (mount localeCompare random36 ls) in
  storedItemsCount st = Storage.length (localStorage st)
  /\ (clearAllShown st = true <-> localStorage st <> []).
Proof.
  intros W T. cbv zeta.
  assert (W' := run_wf localeCompare events
                       (mount localeCompare random36 ls) W).
  assert (I : inSync localeCompare
                (run localeCompare events (mount localeCompare random36 ls)))
    by (apply run_inSync; [exact T | reflexivity]).
  assert (L : storedItemsCount
                (run localeCompare events (mount localeCompare random36 ls))
              = List.length
                  (localStorage
                     (run localeCompare events
                          (mount localeCompare random36 ls)))).
  { unfold storedItemsCount. unfold inSync in I.
    now rewrite I, (readItems_entries _ W'), sort_length, length_map. }
  split; [exact L|].
  unfold clearAllShown. unfold storedItemsCount in L. rewrite L.
  destruct (localStorage
              (run localeCompare events (mount localeCompare random36 ls)));
    simpl; split; intro E; try discriminate; try reflexivity.
  now contradiction E.
Qed.
End Heading.

(** ** A save that the store refuses *)

Section SaveRefused.
Import ListStorage ListStorageFacts.
Context {q : Quota}.
Variable localeCompare : jsstring -> jsstring -> Z.

Lemma forEachRow_refused (rows : list KeyValuePair.t) (ls : ListStorage.t)
  (count : nat) :
  snd (forEachRow rows (ls, count)) = false ->
  exists n row,
    nth_error (filter hasKey rows) n = Some row
    /\ fst (fst (forEachRow rows (ls, count)))
       = fold_left writeRow (firstn n (filter hasKey rows)) ls
    /\ quota < usage (writeRow (fold_left writeRow
                                  (firstn n (filter hasKey rows)) ls) row).
Proof.
  revert ls count. induction rows as [|row rows IH]; intros ls count.
  - discriminate.
  - cbn [forEachRow saveRow filter].
    change (truthy (trim (KeyValuePair.key row))) with (hasKey row).
    destruct (hasKey row) eqn:K; [|apply IH].
    cbn [Storage.setItem ListStorage_API]. unfold setItemWithin.
    fold (writeRow ls row).
    destruct (usage (writeRow ls row) <=? quota) eqn:U.
    + intro B. destruct (IH _ _ B) as [n [r [Hn [E R]]]].
      exists (Datatypes.S n), r. now repeat split.
    + intros _. exists 0, row. apply Nat.leb_gt in U. now repeat split.
Qed.

(** When the store refuses a write, [saveToLocalStorage] is left by the
    exception: the rows that have a key and stand before the refused
    one are written, in the order of the buffer, and nothing else
    changes: no notification, no refresh of the stored items, the buffer
    as it was. The refused write is one that would take the store over
    its quota. *)
Theorem save_left_by_exception (random36 : jsstring)
  (st : AppState ListStorage.t) :
  saveCompletes (inputs st) (localStorage st) = false ->
  let keyed := filter hasKey (inputs st) in
  let st' := saveToLocalStorage localeCompare random36 st in
  inputs st' = inputs st
  /\ storedItems st' = storedItems st
  /\ notification st' = notification st
  /\ timeouts st' = timeouts st
  /\ exists n row,
       nth_error keyed n = Some row
       /\ localStorage st'
          = fold_left writeRow (firstn n keyed) (localStorage st)
       /\ quota < usage (writeRow (localStorage st') row).
Proof.
  intro C. cbv zeta. rewrite (save_thrown localeCompare random36 st C).
  repeat (split; [reflexivity|]).
  destruct (forEachRow_refused (inputs st) (localStorage st) 0 C)
    as [n [row [Hn [E R]]]].
  exists n, row. cbn [localStorage setLocalStorage]. unfold saveRows.
  rewrite E. now repeat split.
Qed.
End SaveRefused.

Lemma save_of_theme_left_by_exception :
  let st := Scenario.withInputs Scenario.themeRows Scenario.emptyStore in
  let keyed := filter hasKey (inputs st) in
  let st' := saveToLocalStorage (api := Samples.tightApi)
               codeUnitCompare (js "0.i") st in
  inputs st' = inputs st
  /\ storedItems st' = storedItems st
  /\ notification st' = notification st
  /\ timeouts st' = timeouts st
  /\ exists n row,
       nth_error keyed n = Some row
       /\ localStorage st'
          = fold_left writeRow (firstn n keyed) (localStorage st)
       /\ Samples.tight < ListStorage.usage (writeRow (localStorage st') row).
Proof.
  apply (save_left_by_exception (q := Samples.tight) codeUnitCompare
           (js "0.i")
           (Scenario.withInputs Scenario.themeRows Scenario.emptyStore)).
  reflexivity.
Defined.

(** ** The further properties on sample states *)

Lemma codeUnitCompare_antisym (a b : jsstring) :
  (codeUnitCompare a b <= 0)%Z -> (codeUnitCompare b a <= 0)%Z -> a = b.
Proof.
  revert b. induction a as [|x a IH]; intros [|y b]; simpl; try lia.
  - reflexivity.
  - rewrite (N.compare_antisym x y).
    destruct (N.compare x y) eqn:E; simpl; try lia.
    apply N.compare_eq in E. subst. intros Hab Hba. f_equal. now apply IH.
Qed.

Lemma canonicalCompare_total (a b : jsstring) :
  (canonicalCompare a b <= 0)%Z \/ (canonicalCompare b a <= 0)%Z.
Proof. apply codeUnitCompare_total. Qed.

Lemma canonicalCompare_trans (a b c : jsstring) :
  (canonicalCompare a b <= 0)%Z -> (canonicalCompare b c <= 0)%Z ->
  (canonicalCompare a c <= 0)%Z.
Proof. apply codeUnitCompare_trans. Qed.

(** Two different strings that are equal for this collation. *)
Example canonicalCompare_equal :
  canonicalCompare [0x65; 0x301]%N [0xE9]%N = 0%Z
  /\ canonicalCompare [0xE9]%N [0x65; 0x301]%N = 0%Z.
Proof. split; reflexivity. Qed.

Section MoreSampleStates.
#[local] Existing Instance Samples.roomy.

Lemma twoRows_ids : NoDup (ids (inputs Samples.twoRows)).
Proof.
  constructor.
  - intros [E|[]]. discriminate E.
  - constructor; [intros [] | constructor].
Qed.

Lemma removeRow_of_two :
  1 + List.length (inputs (removeRow (js "r2") Samples.twoRows)) = 2
  /\ NoDup (ids (inputs (removeRow (js "r2") Samples.twoRows)))
  /\ (forall row, In row (inputs Samples.twoRows) ->
                  KeyValuePair.id row <> js "r2" ->
                  In row (inputs (removeRow (js "r2") Samples.twoRows))).
Proof.
  apply (removeRow_removes_one (js "r2") Samples.twoRows).
  - exact twoRows_ids.
  - right. left. reflexivity.
  - simpl. lia.
Defined.

Lemma addRow_then_removeRow_initial :
  removeRow (generateId (js "0.a"))
            (addRow (js "0.a") (initialState (js "0.i") Scenario.emptyStore))
  = initialState (js "0.i") Scenario.emptyStore.
Proof.
  apply (addRow_then_removeRow (js "0.a")
           (initialState (js "0.i") Scenario.emptyStore)).
  - discriminate.
  - intros [E|[]]. discriminate E.
Defined.

Lemma buffer_events_on_fooBar :
  localStorage (run codeUnitCompare Samples.bufferEvents
                  (mount codeUnitCompare (js "0.i") Scenario.fooBar))
  = localStorage (mount codeUnitCompare (js "0.i") Scenario.fooBar)
  /\ storedItems (run codeUnitCompare Samples.bufferEvents
                    (mount codeUnitCompare (js "0.i") Scenario.fooBar))
     = storedItems (mount codeUnitCompare (js "0.i") Scenario.fooBar).
Proof.
  apply (buffer_events_leave_store codeUnitCompare Samples.bufferEvents
           (mount codeUnitCompare (js "0.i") Scenario.fooBar)).
  reflexivity.
Defined.

Lemma store_events_on_fooBar :
  let st := run codeUnitCompare Samples.storeEvents
              (mount codeUnitCompare (js "0.i") Scenario.fooBar) in
  ListStorage.wf (localStorage st)
  /\ NoDup (map LocalStorageItem.key (storedItems st)).
Proof.
  exact (stored_item_keys_distinct codeUnitCompare (js "0.i")
           Scenario.fooBar Samples.storeEvents fooBar_wf).
Defined.

Example store_events_result :
  localStorage (run codeUnitCompare Samples.storeEvents
                  (mount codeUnitCompare (js "0.i") Scenario.fooBar))
  = [(js "foo", js "3")].
Proof. reflexivity. Qed.

Lemma saved_duplicate_is_listed :
  In (LocalStorageItem.mk (js "a") (js "2") 2)
     (storedItems
        (saveToLocalStorage codeUnitCompare (js "0.i")
           (Scenario.withInputs Scenario.duplicateRows Scenario.fooBar))).
Proof.
  apply (saved_row_is_listed codeUnitCompare (js "0.i")
           (Scenario.withInputs Scenario.duplicateRows Scenario.fooBar)
           [Scenario.row "r1" " a" "1"]
           [Scenario.row "r3" "" "x"; Scenario.row "r4" "b" "3"]
           (Scenario.row "r2" "a " "2")).
  - exact fooBar_wf.
  - reflexivity.
  - reflexivity.
  - repeat constructor; discriminate.
  - reflexivity.
Defined.

Lemma store_events_in_step :
  inSync codeUnitCompare
         (run codeUnitCompare Samples.storeEvents
              (mount codeUnitCompare (js "0.i") Scenario.fooBar)).
Proof.
  apply (stored_items_never_stale codeUnitCompare (js "0.i")
           Scenario.fooBar Samples.storeEvents).
  reflexivity.
Defined.

Lemma delete_a_after_saving_duplicates :
  localStorage
    (deleteItem codeUnitCompare (js "a")
       (saveToLocalStorage codeUnitCompare (js "0.i")
          (Scenario.withInputs Scenario.duplicateRows Scenario.fooBar)))
  = localStorage
      (saveToLocalStorage codeUnitCompare (js "0.j")
         (setInputs (otherKeys (js "a") Scenario.duplicateRows)
            (deleteItem codeUnitCompare (js "a")
               (Scenario.withInputs Scenario.duplicateRows
                                    Scenario.fooBar)))).
Proof.
  assert (C : saveCompletes Scenario.duplicateRows Scenario.fooBar = true)
    by reflexivity.
  apply (proj1 (delete_after_save codeUnitCompare (js "a") (js "0.i")
                  (js "0.j")
                  (Scenario.withInputs Scenario.duplicateRows
                                       Scenario.fooBar) C)).
  reflexivity.
Defined.

Lemma delete_bar_from_the_list :
  storedItems (deleteItem codeUnitCompare (js "bar")
                 (mount codeUnitCompare (js "0.i") Scenario.fooBar))
  = filter (fun item => negb (jsstring_eqb (js "bar")
                                           (LocalStorageItem.key item)))
           (storedItems (mount codeUnitCompare (js "0.i") Scenario.fooBar)).
Proof.
  apply (deleteItem_filters_the_list codeUnitCompare
           codeUnitCompare_total codeUnitCompare_trans (js "bar")
           (mount codeUnitCompare (js "0.i") Scenario.fooBar)).
  - exact fooBar_wf.
  - reflexivity.
Defined.

Lemma fooBar_in_either_order :
  storedItems (refreshStoredItems canonicalCompare
                 (Scenario.withInputs [] Scenario.fooBar))
  = storedItems (refreshStoredItems canonicalCompare
                   (Scenario.withInputs [] Samples.barFoo)).
Proof.
  apply (refresh_ignores_store_order canonicalCompare
           canonicalCompare_total canonicalCompare_trans
           (Scenario.withInputs [] Scenario.fooBar)
           (Scenario.withInputs [] Samples.barFoo)).
  - exact fooBar_wf.
  - apply perm_swap.
  - intros a b [<-|[<-|[]]] [<-|[<-|[]]] Hab Hba; try reflexivity;
      exfalso.
    + apply Z.leb_le in Hab. vm_compute in Hab. discriminate Hab.
    + apply Z.leb_le in Hba. vm_compute in Hba. discriminate Hba.
Defined.

Lemma heading_after_store_events :
  let st := run codeUnitCompare Samples.storeEvents
              (mount codeUnitCompare (js "0.i") Scenario.fooBar) in
  storedItemsCount st = Storage.length (localStorage st)
  /\ (clearAllShown st = true <-> localStorage st <> []).
Proof.
  exact (heading_counts_the_store codeUnitCompare (js "0.i")
           Scenario.fooBar Samples.storeEvents fooBar_wf eq_refl).
Defined.
End MoreSampleStates.
